(** * simem-allocator: a shallow embedding of [src/main.c]

    The allocator of [main.c] keeps a singly linked registry of block
    headers inside one contiguous region that it grows and shrinks with
    [sbrk].  This file embeds the four entry points ([malloc], [free],
    [calloc], [realloc]) and the internal search ([get_free_block]) as
    executable functions over an explicit machine state, and proves the
    properties of the specification about them.

    Modelling choices.
    - Target: LP64 (64-bit [size_t] and pointers, 32-bit [unsigned]).
      Every [size_t] and pointer computation is a [Z] reduced modulo
      [2^64]; the reduction is written at each operation.
    - Memory: the header objects are kept in a finite map from the
      address of the header to its three fields; the payload bytes are
      kept in a second finite map from addresses to byte values (an
      absent key is an indeterminate byte).
    - [sbrk] is the only collaborator of the environment.  Its state is
      the program break [brk] together with the two bounds between which
      the environment lets the break move.
    - Loops run on fuel.  The fuel of a registry walk is one more than the
      number of header objects in memory, which is enough for every walk
      that does not revisit a header; a walk that exhausts it is reported
      as [Diverge].
    - The mutex only brackets the critical sections; in this sequential
      model acquiring and releasing it is the identity and is left out. *)

From Stdlib Require Import ZArith Lia.
From stdpp Require Import base numbers option list gmap.

Local Open Scope Z_scope.

(** ** Object layout *)

Module Layout.

(** A C object type, as far as layout is concerned. *)
Record ctype := CType { c_size : Z; c_align : Z }.

(** The scalar types the header is built from. *)
Record abi := Abi {
  t_char : ctype;
  t_unsigned : ctype;
  t_size_t : ctype;
  t_pointer : ctype
}.

Definition LP64 : abi :=
  {| t_char := CType 1 1; t_unsigned := CType 4 4;
     t_size_t := CType 8 8; t_pointer := CType 8 8 |}.

Definition ILP32 : abi :=
  {| t_char := CType 1 1; t_unsigned := CType 4 4;
     t_size_t := CType 4 4; t_pointer := CType 4 4 |}.

Definition align_up (n a : Z) : Z := ((n + a - 1) / a) * a.

Definition array_of (t : ctype) (n : Z) : ctype :=
  CType (n * c_size t) (c_align t).

(** Members of a struct are placed in order, each at the next multiple
    of its alignment; the struct is padded to its strictest alignment. *)
Definition struct_end (ms : list ctype) : Z :=
  fold_left (fun off m => align_up off (c_align m) + c_size m) ms 0.

Definition max_align (ms : list ctype) : Z :=
  fold_left (fun a m => Z.max a (c_align m)) ms 1.

Definition struct_of (ms : list ctype) : ctype :=
  CType (align_up (struct_end ms) (max_align ms)) (max_align ms).

(** Members of a union overlap at offset 0; the union is as large as its
    largest member, padded to its strictest alignment. *)
Definition union_of (ms : list ctype) : ctype :=
  CType (align_up (fold_left (fun s m => Z.max s (c_size m)) ms 0)
                  (max_align ms))
        (max_align ms).

(** [typedef char ALIGH[16]] *)
Definition ALIGH (a : abi) : ctype := array_of (t_char a) 16.

(** [union header { struct { size_t size; unsigned is_free;
                             union header *next; } s; ALIGH stub; }] *)
Definition header_t (a : abi) : ctype :=
  union_of [struct_of [t_size_t a; t_unsigned a; t_pointer a]; ALIGH a].

End Layout.

(** ** Machine words *)

Definition modulus : Z := 2 ^ 64.

(** [sizeof(header_t)] on the modelled target. *)
Definition sizeof_header_t : Z :=
  Eval cbv in Layout.c_size (Layout.header_t Layout.LP64).

(** The null pointer, and [(void * ) -1]. *)
Definition NULL : Z := 0.
Definition SBRK_FAILED : Z := modulus - 1.

(** Reading of a 64-bit word as [intptr_t] (two's complement). *)
Definition to_intptr (x : Z) : Z :=
  if x <? 2 ^ 63 then x else x - modulus.

(** ** State *)

(** The fields of [header_t.s]. *)
Record header := Header {
  s_size : Z;
  s_is_free : Z;
  s_next : Z
}.

Record state := State {
  head : Z;                 (* global [head] *)
  tail : Z;                 (* global [tail] *)
  hdrs : gmap Z header;     (* header objects, by address *)
  bytes : gmap Z Z;         (* payload bytes, by address *)
  brk : Z;                  (* current program break *)
  brk_min : Z;              (* lowest break the environment accepts *)
  brk_max : Z               (* highest break the environment accepts *)
}.

Definition set_head (v : Z) (st : state) : state :=
  State v (tail st) (hdrs st) (bytes st) (brk st) (brk_min st) (brk_max st).
Definition set_tail (v : Z) (st : state) : state :=
  State (head st) v (hdrs st) (bytes st) (brk st) (brk_min st) (brk_max st).
Definition set_hdrs (m : gmap Z header) (st : state) : state :=
  State (head st) (tail st) m (bytes st) (brk st) (brk_min st) (brk_max st).
Definition set_bytes (m : gmap Z Z) (st : state) : state :=
  State (head st) (tail st) (hdrs st) m (brk st) (brk_min st) (brk_max st).
Definition set_brk (v : Z) (st : state) : state :=
  State (head st) (tail st) (hdrs st) (bytes st) v (brk_min st) (brk_max st).

(** ** Outcomes *)

Inductive outcome (A : Type) : Type :=
| Done (a : A)      (* the call returns *)
| Fault             (* a header is read where none was ever written *)
| Diverge.          (* a loop ran out of fuel *)
Arguments Done {A} a.
Arguments Fault {A}.
Arguments Diverge {A}.

#[global] Instance outcome_bind : MBind outcome :=
  fun A B (k : A -> outcome B) (m : outcome A) =>
    match m with
    | Done a => k a
    | Fault => Fault
    | Diverge => Diverge
    end.

(** ** Memory accesses *)

Definition load (a : Z) (st : state) : outcome header :=
  match hdrs st !! a with
  | Some h => Done h
  | None => Fault
  end.

Definition store (a : Z) (h : header) (st : state) : state :=
  set_hdrs (<[a := h]> (hdrs st)) st.

(** [memset(dst, c, n)]: byte by byte, upwards. *)
Fixpoint memset_loop (n : nat) (dst c : Z) (m : gmap Z Z) : gmap Z Z :=
  match n with
  | O => m
  | S n' => memset_loop n' ((dst + 1) mod modulus) c (<[dst := c]> m)
  end.

Definition memset (dst c n : Z) (st : state) : state :=
  set_bytes (memset_loop (Z.to_nat n) dst (c mod 256) (bytes st)) st.

(** [memcpy(dst, src, n)]: byte by byte, upwards; an indeterminate source
    byte makes the destination byte indeterminate. *)
Definition copy_byte (dst src : Z) (m : gmap Z Z) : gmap Z Z :=
  match m !! src with
  | Some b => <[dst := b]> m
  | None => delete dst m
  end.

Fixpoint memcpy_loop (n : nat) (dst src : Z) (m : gmap Z Z) : gmap Z Z :=
  match n with
  | O => m
  | S n' => memcpy_loop n' ((dst + 1) mod modulus) ((src + 1) mod modulus)
                        (copy_byte dst src m)
  end.

Definition memcpy (dst src n : Z) (st : state) : state :=
  set_bytes (memcpy_loop (Z.to_nat n) dst src (bytes st)) st.

(** ** The environment: [sbrk]

    [sbrk(0)] reports the break.  Any other increment, read as
    [intptr_t], moves the break if the new break stays within the bounds
    of the environment and returns the previous break; otherwise the
    break stays and [(void * ) -1] is returned. *)
Definition sbrk (increment : Z) (st : state) : Z * state :=
  if increment =? 0 then (brk st, st)
  else
    let nb := brk st + to_intptr increment in
    if (brk_min st <=? nb) && (nb <=? brk_max st)
    then (brk st, set_brk nb st)
    else (SBRK_FAILED, st).

(** ** The allocator *)

Definition loop_fuel (st : state) : nat := S (size (hdrs st)).

(** The test [curr->s.is_free == 1 && curr->s.size >= size]. *)
Definition fits (size : Z) (h : header) : bool :=
  (s_is_free h =? 1) && (size <=? s_size h).

(** [get_free_block]: the [while (curr)] loop. *)
Fixpoint get_free_block_loop (fuel : nat) (size curr : Z) (st : state)
  : outcome Z :=
  match fuel with
  | O => Diverge
  | S fuel' =>
      if curr =? NULL then Done NULL
      else
        h ← load curr st;
        if fits size h then Done curr
        else get_free_block_loop fuel' size (s_next h) st
  end.

Definition get_free_block (size : Z) (st : state) : outcome Z :=
  get_free_block_loop (loop_fuel st) size (head st) st.

Definition malloc (size : Z) (st : state) : outcome (Z * state) :=
  if size =? 0 then Done (NULL, st)
  else
    header ← get_free_block size st;
    if negb (header =? NULL) then
      h ← load header st;
      let st1 := store header (Header (s_size h) 0 (s_next h)) st in
      Done ((header + sizeof_header_t) mod modulus, st1)
    else
      let total_size := (sizeof_header_t + size) mod modulus in
      let '(block, st1) := sbrk total_size st in
      if block =? SBRK_FAILED then Done (NULL, st1)
      else
        let header := block in
        let st2 := store header (Header size 0 NULL) st1 in
        let st3 := if head st2 =? NULL then set_head header st2 else st2 in
        st4 ← (if negb (tail st3 =? NULL) then
                 (t ← load (tail st3) st3;
                  Done (store (tail st3)
                          (Header (s_size t) (s_is_free t) header) st3))
               else Done st3);
        let st5 := set_tail header st4 in
        Done ((header + sizeof_header_t) mod modulus, st5).

(** The [while (tmp)] loop of [free] that drops [tail] from the
    registry. *)
Fixpoint free_loop (fuel : nat) (tmp : Z) (st : state) : outcome state :=
  match fuel with
  | O => Diverge
  | S fuel' =>
      if tmp =? NULL then Done st
      else
        h ← load tmp st;
        let st1 :=
          if s_next h =? tail st then
            set_tail tmp (store tmp (Header (s_size h) (s_is_free h) NULL) st)
          else st in
        h1 ← load tmp st1;
        free_loop fuel' (s_next h1) st1
  end.

Definition free (block : Z) (st : state) : outcome state :=
  if block =? NULL then Done st
  else
    let header := (block - sizeof_header_t) mod modulus in
    let '(programbreak, st0) := sbrk 0 st in
    h ← load header st0;
    if (block + s_size h) mod modulus =? programbreak then
      st1 ← (if head st0 =? tail st0 then
                Done (set_tail NULL (set_head NULL st0))
              else free_loop (loop_fuel st0) (head st0) st0);
      h1 ← load header st1;
      let '(_, st2) :=
        sbrk ((0 - sizeof_header_t - s_size h1) mod modulus) st1 in
      Done st2
    else
      Done (store header (Header (s_size h) 1 (s_next h)) st0).

Definition calloc (num nsize : Z) (st : state) : outcome (Z * state) :=
  if (num =? 0) || (nsize =? 0) then Done (NULL, st)
  else
    let size := (num * nsize) mod modulus in
    if negb (nsize =? size / num) then Done (NULL, st)
    else
      '(block, st1) ← malloc size st;
      if block =? NULL then Done (NULL, st1)
      else Done (block, memset block 0 size st1).

Definition realloc (block size : Z) (st : state) : outcome (Z * state) :=
  if (block =? NULL) || (size =? 0) then Done (NULL, st)
  else
    let header := (block - sizeof_header_t) mod modulus in
    h ← load header st;
    if size <=? s_size h then Done (block, st)
    else
      '(ret, st1) ← malloc size st;
      if negb (ret =? NULL) then
        h1 ← load header st1;
        let st2 := memcpy ret block (s_size h1) st1 in
        st3 ← free block st2;
        Done (ret, st3)
      else Done (ret, st1).

(** The state at process start: no block, the break somewhere between the
    bounds. *)
Definition init (b lo hi : Z) : state :=
  State NULL NULL ∅ ∅ b lo hi.


(** ** The registry as a list

    [chain m a l]: following [next] from [a] through the headers of [m]
    visits exactly the addresses of [l], in order, and then reaches
    [NULL]. *)
Inductive chain (m : gmap Z header) : Z -> list Z -> Prop :=
| chain_nil : chain m NULL []
| chain_cons (a : Z) (h : header) (l : list Z) :
    a <> NULL -> m !! a = Some h -> chain m (s_next h) l ->
    chain m a (a :: l).

(** [l] is the registry of [st]: the chain from [head], with [tail] its
    last block ([NULL] when there is none). *)
Definition registry (st : state) (l : list Z) : Prop :=
  chain (hdrs st) (head st) l /\ tail st = default NULL (last l).

(** Registry consistency: [head] is empty exactly when [tail] is, and
    otherwise the chain from [head] ends at [tail], after which comes
    [NULL], and no block occurs twice on it. *)
Definition registry_consistent (st : state) : Prop :=
  (head st = NULL <-> tail st = NULL) /\
  (head st <> NULL ->
   exists l, chain (hdrs st) (head st) l /\
             last l = Some (tail st) /\ NoDup l).

(** First fit over the registry list: the first address whose header
    passes the test of [get_free_block], or [NULL]. *)
Fixpoint first_fit (m : gmap Z header) (size : Z) (l : list Z) : Z :=
  match l with
  | [] => NULL
  | a :: l' =>
      match m !! a with
      | Some h => if fits size h then a else first_fit m size l'
      | None => NULL
      end
  end.

(** [layout m lo hi l]: the blocks of [l] (header and payload) lie one
    after the other, without overlap, between [lo] and [hi]. *)
Fixpoint layout (m : gmap Z header) (lo hi : Z) (l : list Z) : Prop :=
  match l with
  | [] => lo <= hi
  | a :: l' =>
      lo <= a /\
      exists h, m !! a = Some h /\ 0 <= s_size h /\
                layout m (a + sizeof_header_t + s_size h) hi l'
  end.

(** A well-formed allocator state with registry [l]: the break is within
    the bounds of the environment, which lie in the lower half of the
    address space and above address 0, and the registered blocks are laid
    out in registry order below the break. *)
Record wf (st : state) (l : list Z) : Prop := {
  wf_min : 0 < brk_min st;
  wf_brk : brk_min st <= brk st <= brk_max st;
  wf_max : brk_max st < 2 ^ 63;
  wf_registry : registry st l;
  wf_layout : layout (hdrs st) (brk_min st) (brk st) l
}.

(** The state [malloc] builds when the search misses and [sbrk] returns
    the old break: a header for a payload of [s] bytes is written at the
    old break, linked after the old tail and made the tail; [nb] is the
    break after [sbrk]. *)
Definition append_block (s nb : Z) (st : state) : state :=
  let m := <[brk st := Header s 0 NULL]> (hdrs st) in
  State (if head st =? NULL then brk st else head st)
        (brk st)
        (if tail st =? NULL then m
         else match m !! tail st with
              | Some t =>
                  <[tail st := Header (s_size t) (s_is_free t) (brk st)]> m
              | None => m
              end)
        (bytes st) nb (brk_min st) (brk_max st).

(** ** Concrete states *)

(** An empty region with the break at 4096. *)
Definition st_empty : state := init 4096 4096 65536.

(** Two blocks, [A] (64 bytes, header at 4096) and [B] (128 bytes, header
    at 4184), with the break right after [B]; [A] holds four known
    bytes. *)
Definition st_two : state :=
  State 4096 4184
        (<[4096 := Header 64 0 4184]> {[ 4184 := Header 128 0 NULL ]})
        (<[4120 := 1]> (<[4121 := 2]> (<[4122 := 3]> {[ 4123 := 4 ]})))
        4336 4096 65536.

(** The same registry after [free(A)]. *)
Definition st_two_free : state :=
  State 4096 4184
        (<[4096 := Header 64 1 4184]> {[ 4184 := Header 128 0 NULL ]})
        (bytes st_two) 4336 4096 65536.

(** The same registry in an environment that refuses to move the break
    any higher. *)
Definition st_two_full : state :=
  State 4096 4184 (hdrs st_two) (bytes st_two) 4336 4096 4336.

(** [st_two] after [malloc(2^64 - 24)], and after a further
    [malloc(1)]. *)
Definition st_two_wrapped : state :=
  State 4096 4336
        (<[4096 := Header 64 0 4184]>
           (<[4184 := Header 128 0 4336]>
              {[ 4336 := Header (modulus - sizeof_header_t) 0 NULL ]}))
        (bytes st_two) 4336 4096 65536.

Definition st_two_looped : state :=
  State 4096 4336
        (<[4096 := Header 64 0 4184]>
           (<[4184 := Header 128 0 4336]> {[ 4336 := Header 1 0 4336 ]}))
        (bytes st_two) 4361 4096 65536.


(** ** Client calls *)

(** [p] is the payload address of a block of the registry of [st]. *)
Definition registered (st : state) (p : Z) : Prop :=
  exists l a, chain (hdrs st) (head st) l /\ a ∈ l /\
              p = a + sizeof_header_t.

(** The states a client reaches from an empty region: it calls the four
    entry points with requests whose total size stays below [2^63], hands
    to [free] and [realloc] only [NULL] or the payload address of a
    registered block, and writes payload bytes in between. *)
Inductive reachable : state -> Prop :=
| reach_init (b lo hi : Z) :
    0 < lo -> lo <= b <= hi -> hi < 2 ^ 63 -> reachable (init b lo hi)
| reach_malloc (st st' : state) (s p : Z) :
    reachable st -> 0 <= s -> sizeof_header_t + s < 2 ^ 63 ->
    malloc s st = Done (p, st') -> reachable st'
| reach_free (st st' : state) (p : Z) :
    reachable st -> p = NULL \/ registered st p ->
    free p st = Done st' -> reachable st'
| reach_calloc (st st' : state) (num nsize p : Z) :
    reachable st -> 0 <= num -> 0 <= nsize ->
    sizeof_header_t + num * nsize < 2 ^ 63 ->
    calloc num nsize st = Done (p, st') -> reachable st'
| reach_realloc (st st' : state) (p s r : Z) :
    reachable st -> p = NULL \/ registered st p ->
    0 <= s -> sizeof_header_t + s < 2 ^ 63 ->
    realloc p s st = Done (r, st') -> reachable st'
| reach_write (st : state) (a v : Z) :
    reachable st -> reachable (set_bytes (<[a := v]> (bytes st)) st).

(** ** More concrete states *)

(** [st_two] in an environment with room for 100 more bytes only. *)
Definition st_two_tight : state :=
  State 4096 4184 (hdrs st_two) (bytes st_two) 4336 4096 4436.

(** One block of 64 bytes that ends at the break. *)
Definition st_one : state :=
  State 4096 4096 {[ 4096 := Header 64 0 NULL ]} ∅ 4184 4096 65536.

(** [st_two] after [malloc(200)]. *)
Definition st_three : state :=
  State 4096 4336
        (<[4096 := Header 64 0 4184]>
           (<[4184 := Header 128 0 4336]> {[ 4336 := Header 200 0 NULL ]}))
        (bytes st_two) 4560 4096 65536.

(** [st_one] after [malloc(128)]: the registry of [st_two], no payload
    byte written yet. *)
Definition st_two_plain : state :=
  State 4096 4184 (hdrs st_two) ∅ 4336 4096 65536.



(** ** Tactics *)

Ltac break_tests :=
  repeat match goal with
    | |- context [Z.eqb ?a ?b] => destruct (Z.eqb_spec a b)
    | |- context [Z.leb ?a ?b] => destruct (Z.leb_spec a b)
    | |- context [Z.ltb ?a ?b] => destruct (Z.ltb_spec a b)
    end.

Ltac word_arith :=
  unfold SBRK_FAILED, NULL, sizeof_header_t, modulus in *;
  Z.div_mod_to_equations; lia.

Ltac simpl_state :=
  cbn [store set_hdrs set_brk set_head set_tail set_bytes
       head tail hdrs bytes brk brk_min brk_max
       mbind outcome_bind s_size s_is_free s_next fst snd negb andb orb] in *.

Ltac chain_concrete :=
  repeat (eapply chain_cons;
          [vm_compute; discriminate | reflexivity | cbn [s_next]]);
  apply chain_nil.

Ltac layout_concrete :=
  lazymatch goal with
  | |- layout _ _ _ [] => vm_compute; discriminate
  | |- layout _ _ _ (_ :: _) =>
      split; [vm_compute; discriminate |];
      eexists; split; [reflexivity |];
      split; [vm_compute; discriminate | cbn [s_size]; layout_concrete]
  end.

Ltac wf_concrete :=
  constructor;
  [ vm_compute; reflexivity
  | split; vm_compute; discriminate
  | vm_compute; reflexivity
  | split; [cbn [app]; chain_concrete | reflexivity]
  | cbn [app]; layout_concrete ].

(** ** Words and the break *)

Lemma mod_small_word (x : Z) : 0 <= x < modulus -> x mod modulus = x.
Proof. intros. apply Z.mod_small; assumption. Qed.

Lemma to_intptr_cases (x : Z) :
  (x < 2 ^ 63 /\ to_intptr x = x) \/
  (2 ^ 63 <= x /\ to_intptr x = x - modulus).
Proof. unfold to_intptr. break_tests; auto. Qed.

Lemma sbrk_0 (st : state) : sbrk 0 st = (brk st, st).
Proof. reflexivity. Qed.

Lemma sbrk_frame (d : Z) (st : state) :
  head (sbrk d st).2 = head st /\ tail (sbrk d st).2 = tail st /\
  hdrs (sbrk d st).2 = hdrs st /\ bytes (sbrk d st).2 = bytes st.
Proof. unfold sbrk. break_tests; cbn; auto. Qed.

(** What [sbrk] returns and where it leaves the break. *)
Lemma sbrk_cases (d : Z) (st : state) :
  (sbrk d st = (brk st, set_brk (brk st + to_intptr d) st) /\
   brk_min st <= brk st + to_intptr d <= brk_max st) \/
  (sbrk d st = (brk st, st) /\ d = 0) \/
  (sbrk d st = (SBRK_FAILED, st) /\ d <> 0 /\
   ~ brk_min st <= brk st + to_intptr d <= brk_max st).
Proof.
  unfold sbrk. break_tests; cbn [andb]; auto; right; right; split; auto; lia.
Qed.

Lemma load_Some (a : Z) (h : header) (st : state) :
  hdrs st !! a = Some h -> load a st = Done h.
Proof. unfold load. intros ->. reflexivity. Qed.

(** ** Chains *)

Section Chains.

Context (m : gmap Z header).

Lemma chain_cons_inv (a b : Z) (l : list Z) :
  chain m a (b :: l) ->
  a = b /\ b <> NULL /\ exists h, m !! b = Some h /\ chain m (s_next h) l.
Proof. inversion 1; subst. eauto. Qed.

Lemma chain_nil_inv (a : Z) : chain m a [] -> a = NULL.
Proof. inversion 1; reflexivity. Qed.

Lemma chain_functional (a : Z) (l1 l2 : list Z) :
  chain m a l1 -> chain m a l2 -> l1 = l2.
Proof.
  intros H1. revert l2.
  induction H1 as [| a h l Hnn Hh _ IH]; intros l2 H2.
  - inversion H2; [reflexivity | congruence].
  - inversion H2 as [| a' h' l' _ Hh' Hc']; subst; [congruence |].
    rewrite Hh in Hh'. injection Hh' as <-. f_equal. apply IH, Hc'.
Qed.

Lemma chain_suffix (a b : Z) (l1 l2 : list Z) :
  chain m a (l1 ++ b :: l2) -> chain m b (b :: l2).
Proof.
  revert a. induction l1 as [| x l1 IH]; intros a Hc; cbn in Hc.
  - inversion Hc; subst. exact Hc.
  - inversion Hc; subst. eapply IH; eassumption.
Qed.

Lemma chain_lookup (a b : Z) (l : list Z) :
  chain m a l -> b ∈ l -> b <> NULL /\ is_Some (m !! b).
Proof.
  induction 1 as [| a h l Hnn Hh _ IH]; intros Hin.
  - inversion Hin.
  - apply elem_of_cons in Hin as [-> | Hin]; [| auto].
    split; [assumption | eexists; eassumption].
Qed.

Lemma chain_NoDup (a : Z) (l : list Z) :
  chain m a l -> NoDup l.
Proof.
  induction 1 as [| a h l Hnn Hh Hc IH]; constructor; [| assumption].
  intros Hin. apply list_elem_of_split in Hin as (l1 & l2 & ->).
  assert (Hs : chain m a (a :: l2)) by (eapply chain_suffix; eassumption).
  assert (Hall : chain m a (a :: l1 ++ a :: l2))
    by (econstructor; eassumption).
  pose proof (chain_functional _ _ _ Hs Hall) as He.
  apply (f_equal length) in He. cbn in He. rewrite length_app in He.
  cbn in He. lia.
Qed.

Lemma chain_length (a : Z) (l : list Z) :
  chain m a l -> (length l <= size m)%nat.
Proof.
  intros Hc.
  rewrite <- (size_list_to_set (C := gset Z) l) by (eapply chain_NoDup, Hc).
  rewrite <- (size_dom m).
  apply subseteq_size. intros x Hx.
  apply elem_of_list_to_set in Hx.
  apply elem_of_dom. eapply chain_lookup; eassumption.
Qed.

Lemma chain_tail_next (a t : Z) (l : list Z) :
  chain m a l -> last l = Some t ->
  exists h, m !! t = Some h /\ s_next h = NULL.
Proof.
  induction 1 as [| a h l Hnn Hh Hc IH]; intros Hl; [discriminate |].
  destruct l as [| y l'].
  - cbn in Hl. injection Hl as <-. apply chain_nil_inv in Hc. eauto.
  - apply IH. exact Hl.
Qed.

End Chains.

(** Neither do the [size] and [is_free] fields. *)
Lemma chain_insert_next (m : gmap Z header) (a b : Z) (hb hb' : header)
      (l : list Z) :
  m !! b = Some hb -> s_next hb' = s_next hb ->
  chain m a l -> chain (<[b := hb']> m) a l.
Proof.
  intros Hb Hn. induction 1 as [| a h l Hnn Hh _ IH].
  - constructor.
  - destruct (decide (a = b)) as [-> | Hne].
    + rewrite Hb in Hh. injection Hh as <-.
      econstructor; [assumption | apply lookup_insert_eq |].
      rewrite Hn. exact IH.
    + econstructor; [assumption | | exact IH].
      rewrite lookup_insert_ne by congruence. exact Hh.
Qed.

Lemma chain_snoc (m : gmap Z header) (a b s : Z) (l : list Z) :
  chain m a l -> b ∉ l -> b <> NULL ->
  chain
    (if default NULL (last l) =? NULL then <[b := Header s 0 NULL]> m
     else match <[b := Header s 0 NULL]> m !! default NULL (last l) with
          | Some t =>
              <[default NULL (last l) :=
                  Header (s_size t) (s_is_free t) b]>
                (<[b := Header s 0 NULL]> m)
          | None => <[b := Header s 0 NULL]> m
          end)
    (if a =? NULL then b else a) (l ++ [b]).
Proof.
  intros Hc Hb Hbn.
  pose proof (chain_NoDup _ _ _ Hc) as Hnd.
  induction Hc as [| a h l Hnn Hh Hc IH].
  - cbn. econstructor; [exact Hbn | apply lookup_insert_eq | constructor].
  - apply not_elem_of_cons in Hb as [Hba Hb].
    apply NoDup_cons in Hnd as [Hal Hnd].
    destruct (Z.eqb_spec a NULL) as [He | _]; [contradiction |].
    destruct l as [| y l'].
    + apply chain_nil_inv in Hc. change (default NULL (last [a])) with a.
      destruct (Z.eqb_spec a NULL) as [He | _]; [contradiction |].
      rewrite lookup_insert_ne by congruence. rewrite Hh. cbn.
      econstructor; [exact Hnn | apply lookup_insert_eq |]. cbn.
      econstructor;
        [exact Hbn
        | rewrite lookup_insert_ne by congruence; apply lookup_insert_eq
        | constructor].
    + specialize (IH Hb Hnd).
      pose proof (chain_cons_inv _ _ _ _ Hc) as (Hny & Hyn & _).
      rewrite Hny in IH.
      destruct (Z.eqb_spec y NULL) as [He | _]; [contradiction |].
      change (last (a :: y :: l')) with (last (y :: l')).
      assert (Hlast : default NULL (last (y :: l')) ∈ y :: l').
      { destruct (last (y :: l')) as [t |] eqn:Hl.
        - apply last_Some_elem_of. exact Hl.
        - apply last_None in Hl. discriminate. }
      assert (Hat : a <> default NULL (last (y :: l'))) by congruence.
      cbn [app]. econstructor; [exact Hnn | | rewrite Hny; exact IH].
      destruct (default NULL (last (y :: l')) =? NULL).
      * rewrite lookup_insert_ne by congruence. exact Hh.
      * destruct (<[b := Header s 0 NULL]> m !! default NULL (last (y :: l'))).
        -- rewrite !lookup_insert_ne by congruence. exact Hh.
        -- rewrite lookup_insert_ne by congruence. exact Hh.
Qed.

Lemma chain_drop_last (m : gmap Z header) (a p c : Z) (hp : header)
      (l0 : list Z) :
  chain m a (l0 ++ [p; c]) -> m !! p = Some hp ->
  chain (<[p := Header (s_size hp) (s_is_free hp) NULL]> m) a (l0 ++ [p]).
Proof.
  intros Hc Hp. pose proof (chain_NoDup _ _ _ Hc) as Hnd.
  revert a Hc. induction l0 as [| x l0 IH]; intros a Hc; cbn in *.
  - apply chain_cons_inv in Hc as (-> & Hnn & _).
    econstructor; [exact Hnn | apply lookup_insert_eq | constructor].
  - apply chain_cons_inv in Hc as (-> & Hnn & hx & Hhx & Hc).
    apply NoDup_cons in Hnd as [Hx Hnd].
    apply (chain_cons _ x hx); [exact Hnn | | apply IH; assumption].
    rewrite lookup_insert_ne; [exact Hhx |].
    intros ->. apply Hx. rewrite elem_of_app. right. left.
Qed.

(** ** Layout *)

Section LayoutFacts.

Context (m : gmap Z header).

Lemma layout_le (lo hi : Z) (l : list Z) :
  layout m lo hi l -> lo <= hi.
Proof.
  revert lo. induction l as [| a l IH]; intros lo; cbn; [tauto |].
  intros (Hlo & h & _ & Hsz & Hl). apply IH in Hl. word_arith.
Qed.

Lemma layout_app (lo hi : Z) (l1 l2 : list Z) :
  layout m lo hi (l1 ++ l2) <->
  exists mid, layout m lo mid l1 /\ layout m mid hi l2.
Proof.
  revert lo. induction l1 as [| a l1 IH]; intros lo; cbn.
  - split.
    + intros Hl. exists lo. split; [lia | exact Hl].
    + intros (mid & Hle & Hl). destruct l2 as [| b l2]; cbn in *.
      * lia.
      * destruct Hl as (Hb & Hr). split; [lia | exact Hr].
  - split.
    + intros (Hlo & h & Hh & Hsz & Hl). apply IH in Hl as (mid & H1 & H2).
      exists mid. split; [| exact H2]. split; [exact Hlo |].
      exists h. auto.
    + intros (mid & (Hlo & h & Hh & Hsz & H1) & H2).
      split; [exact Hlo |]. exists h. repeat (split; [assumption |]).
      apply IH. exists mid. auto.
Qed.

Lemma layout_elem (lo hi a : Z) (l : list Z) :
  layout m lo hi l -> a ∈ l ->
  exists h, m !! a = Some h /\ lo <= a /\ 0 <= s_size h /\
            a + sizeof_header_t + s_size h <= hi.
Proof.
  intros Hl Hin. apply list_elem_of_split in Hin as (l1 & l2 & ->).
  apply layout_app in Hl as (mid & H1 & H2). cbn in H2.
  destruct H2 as (Hmid & h & Hh & Hsz & H2).
  apply layout_le in H1, H2. exists h. repeat split; auto; lia.
Qed.

Lemma layout_disjoint (lo hi a b : Z) (ha hb : header)
      (l : list Z) :
  layout m lo hi l -> a ∈ l -> b ∈ l -> a <> b ->
  m !! a = Some ha -> m !! b = Some hb ->
  a + sizeof_header_t + s_size ha <= b \/
  b + sizeof_header_t + s_size hb <= a.
Proof.
  intros Hl Ha Hb Hne Hha Hhb.
  apply list_elem_of_split in Ha as (l1 & l2 & ->).
  apply layout_app in Hl as (mid & H1 & H2). cbn in H2.
  destruct H2 as (Hmid & ha' & Hha' & Hsz & H2).
  rewrite Hha in Hha'. injection Hha' as <-.
  apply elem_of_app in Hb as [Hb | Hb].
  - right. destruct (layout_elem _ _ _ _ H1 Hb) as (hb' & Hhb' & _ & _ & Hle).
    rewrite Hhb in Hhb'. injection Hhb' as <-. lia.
  - apply elem_of_cons in Hb as [-> | Hb]; [contradiction |].
    left. destruct (layout_elem _ _ _ _ H2 Hb) as (hb' & _ & Hle & _).
    exact Hle.
Qed.

Lemma layout_weaken (lo hi hi' : Z) (l : list Z) :
  layout m lo hi l -> hi <= hi' -> layout m lo hi' l.
Proof.
  revert lo. induction l as [| a l IH]; intros lo Hl Hle; cbn in *; [lia |].
  destruct Hl as (Hlo & h & Hh & Hsz & Hl).
  split; [exact Hlo |]. exists h. repeat (split; [assumption |]).
  apply IH; assumption.
Qed.

Lemma layout_last_at_break (lo hi a : Z) (h : header)
      (l : list Z) :
  layout m lo hi l -> a ∈ l -> m !! a = Some h ->
  a + sizeof_header_t + s_size h = hi ->
  exists l0, l = l0 ++ [a].
Proof.
  intros Hl Ha Hh Hend.
  apply list_elem_of_split in Ha as (l1 & l2 & ->).
  destruct l2 as [| b l2]; [eauto |]. exfalso.
  apply layout_app in Hl as (mid & _ & H2). cbn in H2.
  destruct H2 as (_ & h' & Hh' & _ & Hab & hb & _ & Hbsz & H2).
  rewrite Hh in Hh'. injection Hh' as <-.
  apply layout_le in H2. word_arith.
Qed.

End LayoutFacts.

Lemma layout_ext (m m' : gmap Z header) (lo hi : Z) (l : list Z) :
  layout m lo hi l ->
  (forall a h, a ∈ l -> m !! a = Some h ->
     exists h', m' !! a = Some h' /\ s_size h' = s_size h) ->
  layout m' lo hi l.
Proof.
  revert lo. induction l as [| a l IH]; intros lo Hl Hext; cbn in *;
    [exact Hl |].
  destruct Hl as (Hlo & h & Hh & Hsz & Hl).
  destruct (Hext a h ltac:(left) Hh) as (h' & Hh' & Hs').
  split; [exact Hlo |]. exists h'. rewrite Hs'.
  repeat (split; [assumption |]).
  apply IH; [exact Hl |]. intros x hx Hx. apply Hext. right. exact Hx.
Qed.

(** ** Consequences of well-formedness *)

Lemma registry_tail_in (st : state) (l : list Z) :
  registry st l -> tail st <> NULL -> tail st ∈ l.
Proof.
  intros [_ Ht] Hn. destruct (last l) as [t |] eqn:Hl.
  - cbn in Ht. rewrite Ht. apply last_Some_elem_of. exact Hl.
  - cbn in Ht. contradiction.
Qed.

Lemma wf_block (st : state) (l : list Z) (a : Z) :
  wf st l -> a ∈ l ->
  exists h, hdrs st !! a = Some h /\ brk_min st <= a /\ 0 <= s_size h /\
            a + sizeof_header_t + s_size h <= brk st.
Proof. intros Hwf Hin. eapply layout_elem; [apply Hwf | exact Hin]. Qed.

Lemma wf_brk_fresh (st : state) (l : list Z) :
  wf st l -> (brk st ∉ l) /\ brk st <> NULL /\ brk st <> SBRK_FAILED.
Proof.
  intros Hwf. split; [| destruct Hwf; split; word_arith].
  intros Hin. destruct (wf_block _ _ _ Hwf Hin) as (h & _ & _ & Hsz & Hle).
  word_arith.
Qed.

Lemma wf_tail (st : state) (l : list Z) :
  wf st l -> tail st <> NULL ->
  tail st <> brk st /\ is_Some (hdrs st !! tail st).
Proof.
  intros Hwf Hn.
  assert (Hin : tail st ∈ l) by (eapply registry_tail_in; [apply Hwf | exact Hn]).
  split.
  - intros He. rewrite He in Hin. apply (wf_brk_fresh _ _ Hwf) in Hin as [].
  - destruct (wf_block _ _ _ Hwf Hin) as (h & Hh & _). eexists; exact Hh.
Qed.

Lemma wf_set_bytes (st : state) (l : list Z) (m : gmap Z Z) :
  wf st l -> wf (set_bytes m st) l.
Proof. intros [? ? ? ? ?]. constructor; assumption. Qed.

Lemma wf_init (b lo hi : Z) :
  0 < lo -> lo <= b <= hi -> hi < 2 ^ 63 -> wf (init b lo hi) [].
Proof.
  intros Hlo Hb Hhi. constructor; cbn; try lia.
  split; [constructor | reflexivity].
Qed.

Lemma store_lookup_size (st : state) (b x : Z) (hb h' h : header) :
  hdrs st !! b = Some hb -> s_size h' = s_size hb ->
  hdrs st !! x = Some h ->
  exists h1, hdrs (store b h' st) !! x = Some h1 /\ s_size h1 = s_size h.
Proof.
  intros Hb Hs Hx. simpl_state. destruct (decide (x = b)) as [-> | Hne].
  - rewrite lookup_insert_eq. rewrite Hb in Hx. injection Hx as <-. eauto.
  - rewrite lookup_insert_ne by congruence. eauto.
Qed.

(** ** Zero sizes *)

(** C8. [malloc(0)], [calloc(0, n)] and [calloc(n, 0)] return [NULL] and
    hand back the state they were given: globals, break, every header and
    every byte. *)
Theorem zero_size_requests (n : Z) (st : state) :
  malloc 0 st = Done (NULL, st) /\
  calloc 0 n st = Done (NULL, st) /\
  calloc n 0 st = Done (NULL, st).
Proof.
  split; [reflexivity | split; [reflexivity |]].
  unfold calloc. rewrite orb_true_r. reflexivity.
Qed.

(** ** Overflow of [num * nsize] *)

Lemma wrapped_product_div (num nsize : Z) :
  0 < num -> 0 <= nsize ->
  (nsize <> ((num * nsize) mod modulus) / num <-> modulus <= num * nsize).
Proof.
  intros Hnum Hns. split.
  - intros Hne.
    destruct (Z_lt_le_dec (num * nsize) modulus) as [Hlt | Hge]; [| exact Hge].
    exfalso. apply Hne.
    rewrite Z.mod_small by nia.
    rewrite Z.mul_comm, Z.div_mul by lia. reflexivity.
  - intros Hge Heq.
    assert (Hw : 0 <= (num * nsize) mod modulus < modulus)
      by (apply Z.mod_pos_bound; reflexivity).
    assert (Hlt : ((num * nsize) mod modulus) / num < nsize)
      by (apply Z.div_lt_upper_bound; lia).
    lia.
Qed.

(** C7. For nonzero [num] and [nsize], the test [nsize != size / num] on
    the wrapped product fires exactly when [num * nsize] does not fit in
    a [size_t]; when it does not fit, [calloc] returns [NULL] and the
    state is the one it was given. *)
Theorem calloc_overflow (num nsize : Z) (st : state) :
  0 < num < modulus -> 0 < nsize < modulus ->
  (nsize <> ((num * nsize) mod modulus) / num <-> modulus <= num * nsize) /\
  (modulus <= num * nsize -> calloc num nsize st = Done (NULL, st)).
Proof.
  intros Hnum Hns.
  assert (Hiff := wrapped_product_div num nsize ltac:(lia) ltac:(lia)).
  split; [exact Hiff |].
  intros Hov. unfold calloc.
  replace (num =? 0) with false by (symmetry; apply Z.eqb_neq; lia).
  replace (nsize =? 0) with false by (symmetry; apply Z.eqb_neq; lia).
  cbn [orb].
  destruct (Z.eqb_spec nsize ((num * nsize) mod modulus / num)) as [He | _].
  - exfalso. apply Hiff in Hov. contradiction.
  - reflexivity.
Qed.

Lemma calloc_overflow_witness :
  (2 ^ 32 <> ((2 ^ 32 * 2 ^ 32) mod modulus) / 2 ^ 32 <->
   modulus <= 2 ^ 32 * 2 ^ 32) /\
  (modulus <= 2 ^ 32 * 2 ^ 32 ->
   calloc (2 ^ 32) (2 ^ 32) st_empty = Done (NULL, st_empty)).
Proof.
  apply (calloc_overflow (2 ^ 32) (2 ^ 32) st_empty); unfold modulus; lia.
Defined.

(** ** The search *)

Lemma fits_true (size : Z) (h : header) :
  fits size h = true <-> s_is_free h = 1 /\ size <= s_size h.
Proof.
  unfold fits. rewrite andb_true_iff, Z.eqb_eq, Z.leb_le. reflexivity.
Qed.

Lemma fits_false (size : Z) (h : header) :
  fits size h = false <-> ~ (s_is_free h = 1 /\ size <= s_size h).
Proof. rewrite <- fits_true. destruct (fits size h); intuition congruence. Qed.

Lemma get_free_block_loop_first_fit (fuel : nat) (size a : Z) (st : state)
      (l : list Z) :
  chain (hdrs st) a l -> (length l < fuel)%nat ->
  get_free_block_loop fuel size a st = Done (first_fit (hdrs st) size l).
Proof.
  intros Hc. revert fuel.
  induction Hc as [| a h l Hnn Hh _ IH]; intros fuel Hf.
  - destruct fuel; [cbn in Hf; lia | reflexivity].
  - destruct fuel as [| fuel]; [cbn in Hf; lia |].
    cbn [get_free_block_loop first_fit].
    destruct (Z.eqb_spec a NULL) as [He | _]; [contradiction |].
    unfold load. rewrite Hh. cbn [mbind outcome_bind].
    destruct (fits size h); [reflexivity |].
    apply IH. cbn in Hf. lia.
Qed.

Lemma get_free_block_first_fit (size : Z) (st : state) (l : list Z) :
  chain (hdrs st) (head st) l ->
  get_free_block size st = Done (first_fit (hdrs st) size l).
Proof.
  intros Hc. apply get_free_block_loop_first_fit; [exact Hc |].
  unfold loop_fuel. pose proof (chain_length _ _ _ Hc). lia.
Qed.

Lemma first_fit_spec (m : gmap Z header) (size a : Z) (l : list Z) :
  chain m a l ->
  (first_fit m size l = NULL /\
   Forall (fun x => forall hx, m !! x = Some hx -> fits size hx = false) l) \/
  (exists l1 b l2 h, l = l1 ++ b :: l2 /\ first_fit m size l = b /\
     m !! b = Some h /\ fits size h = true /\
     Forall (fun x => forall hx, m !! x = Some hx -> fits size hx = false) l1).
Proof.
  induction 1 as [| a h l Hnn Hh Hc IH]; cbn.
  - left. split; [reflexivity | constructor].
  - rewrite Hh. destruct (fits size h) eqn:Hfit.
    + right. exists [], a, l, h. cbn. repeat split; try assumption.
      constructor.
    + destruct IH as [[H0 Hall] | (l1 & b & l2 & hb & -> & Hff & Hb & Hfb & Hall)].
      * left. split; [assumption |]. constructor; [| assumption].
        intros hx Hx. congruence.
      * right. exists (a :: l1), b, l2, hb. cbn.
        repeat split; try assumption.
        constructor; [| assumption]. intros hx Hx. congruence.
Qed.

(** ** Reuse on a hit *)

(** C1. If some block of the registry is free ([is_free == 1]) and large
    enough for the request [s > 0], then [malloc(s)] returns the payload
    address of the first such block [b] in registry order (no block
    before it in the registry qualifies); the only change of the state is
    that the header of [b] now has [is_free = 0], with its [size] and
    [next] kept: every other header, the payload bytes, [head], [tail]
    and the break are the ones before the call. *)
Theorem malloc_reuses_first_fit (s : Z) (st : state) (l : list Z) :
  0 < s ->
  chain (hdrs st) (head st) l ->
  Exists (fun x => exists hx, hdrs st !! x = Some hx /\
                              s_is_free hx = 1 /\ s <= s_size hx) l ->
  exists l1 b l2 h,
    l = l1 ++ b :: l2 /\
    Forall (fun x => forall hx, hdrs st !! x = Some hx ->
                                ~ (s_is_free hx = 1 /\ s <= s_size hx)) l1 /\
    hdrs st !! b = Some h /\ s_is_free h = 1 /\ s <= s_size h /\
    malloc s st =
      Done ((b + sizeof_header_t) mod modulus,
            State (head st) (tail st)
              (<[b := Header (s_size h) 0 (s_next h)]> (hdrs st))
              (bytes st) (brk st) (brk_min st) (brk_max st)).
Proof.
  intros Hs Hc Hex.
  destruct (first_fit_spec (hdrs st) s _ _ Hc)
    as [[_ Hall] | (l1 & b & l2 & h & -> & Hff & Hb & Hfit & Hall)].
  - exfalso. apply Exists_exists in Hex as (x & Hx & hx & Hhx & Hfree & Hsz).
    rewrite Forall_forall in Hall.
    specialize (Hall x Hx hx Hhx). apply fits_false in Hall. tauto.
  - exists l1, b, l2, h. apply fits_true in Hfit as [Hfree Hsz].
    split; [reflexivity |]. split.
    { eapply Forall_impl; [exact Hall |]. cbn. intros x Hx hx Hhx.
      apply fits_false. auto. }
    repeat (split; [assumption |]).
    unfold malloc.
    destruct (Z.eqb_spec s 0) as [-> | _]; [lia |].
    rewrite (get_free_block_first_fit s st _ Hc), Hff.
    cbn [mbind outcome_bind].
    assert (Hbn : b <> NULL).
    { eapply chain_lookup; [exact Hc |]. apply elem_of_app. right. left. }
    destruct (Z.eqb_spec b NULL) as [He | _]; [contradiction |].
    cbn [negb]. unfold load. rewrite Hb. reflexivity.
Qed.

Lemma malloc_reuses_first_fit_witness :
  exists l1 b l2 h,
    [4096; 4184] = l1 ++ b :: l2 /\
    Forall (fun x => forall hx, hdrs st_two_free !! x = Some hx ->
                                ~ (s_is_free hx = 1 /\ 32 <= s_size hx)) l1 /\
    hdrs st_two_free !! b = Some h /\ s_is_free h = 1 /\ 32 <= s_size h /\
    malloc 32 st_two_free =
      Done ((b + sizeof_header_t) mod modulus,
            State (head st_two_free) (tail st_two_free)
              (<[b := Header (s_size h) 0 (s_next h)]> (hdrs st_two_free))
              (bytes st_two_free) (brk st_two_free) (brk_min st_two_free)
              (brk_max st_two_free)).
Proof.
  apply (malloc_reuses_first_fit 32 st_two_free [4096; 4184]).
  - lia.
  - chain_concrete.
  - apply Exists_cons_hd. exists (Header 64 1 4184).
    split; [reflexivity |]. split; [reflexivity | cbn; lia].
Defined.

(** ** The two paths of [malloc] *)

Lemma malloc_hit (s b : Z) (h : header) (st : state) (l : list Z) :
  s <> 0 -> chain (hdrs st) (head st) l ->
  first_fit (hdrs st) s l = b -> b <> NULL -> hdrs st !! b = Some h ->
  malloc s st =
    Done ((b + sizeof_header_t) mod modulus,
          store b (Header (s_size h) 0 (s_next h)) st).
Proof.
  intros Hs Hc Hff Hb Hh. unfold malloc.
  destruct (Z.eqb_spec s 0) as [He | _]; [contradiction |].
  rewrite (get_free_block_first_fit s st l Hc), Hff. simpl_state.
  destruct (Z.eqb_spec b NULL) as [He | _]; [contradiction |].
  simpl_state. rewrite (load_Some b h) by exact Hh. reflexivity.
Qed.

Lemma malloc_miss (s : Z) (st : state) (l : list Z) :
  s <> 0 -> chain (hdrs st) (head st) l ->
  first_fit (hdrs st) s l = NULL ->
  brk st <> SBRK_FAILED ->
  (tail st <> NULL -> tail st <> brk st /\ is_Some (hdrs st !! tail st)) ->
  malloc s st =
    let r := sbrk ((sizeof_header_t + s) mod modulus) st in
    if r.1 =? SBRK_FAILED then Done (NULL, st)
    else Done ((brk st + sizeof_header_t) mod modulus,
               append_block s (brk r.2) st).
Proof.
  intros Hs Hc Hff Hbrk Htl. unfold malloc.
  destruct (Z.eqb_spec s 0) as [He | _]; [contradiction |].
  rewrite (get_free_block_first_fit s st l Hc), Hff. simpl_state.
  change (negb (NULL =? NULL)) with false. cbv iota.
  destruct st as [hd tl hs bs b lo hi]. simpl_state.
  match goal with
  | |- context [sbrk ?d ?st] =>
      destruct (sbrk_cases d st) as [[-> Hin] | [[-> H0] | [-> _]]]
  end; simpl_state; cbv zeta.
  3:{ change (SBRK_FAILED =? SBRK_FAILED) with true. reflexivity. }
  all: destruct (Z.eqb_spec b SBRK_FAILED) as [He | _]; [contradiction |].
  all: unfold append_block; simpl_state.
  all: destruct (Z.eqb_spec hd NULL) as [Hhd | Hhd]; simpl_state.
  all: destruct (Z.eqb_spec tl NULL) as [Htn | Htn]; simpl_state;
    [reflexivity |].
  all: destruct (Htl Htn) as [Hne [t Ht]].
  all: rewrite (load_Some tl t)
    by (simpl_state; rewrite lookup_insert_ne by congruence; exact Ht).
  all: simpl_state; rewrite lookup_insert_ne by congruence; rewrite Ht.
  all: reflexivity.
Qed.

Lemma append_block_lookup (s nb a : Z) (h : header) (st : state) :
  a <> brk st -> hdrs st !! a = Some h ->
  exists h', hdrs (append_block s nb st) !! a = Some h' /\
             s_size h' = s_size h.
Proof.
  intros Hne Hh. unfold append_block. simpl_state.
  destruct (tail st =? NULL).
  - rewrite lookup_insert_ne by congruence. eauto.
  - destruct (<[brk st := Header s 0 NULL]> (hdrs st) !! tail st)
      as [t |] eqn:Ht.
    + destruct (decide (a = tail st)) as [-> | Hat].
      * rewrite lookup_insert_eq. rewrite lookup_insert_ne in Ht by congruence.
        rewrite Hh in Ht. injection Ht as <-. eauto.
      * rewrite !lookup_insert_ne by congruence. eauto.
    + rewrite lookup_insert_ne by congruence. eauto.
Qed.

Lemma append_block_new (s nb : Z) (st : state) :
  (tail st <> NULL -> tail st <> brk st) ->
  hdrs (append_block s nb st) !! brk st = Some (Header s 0 NULL).
Proof.
  intros Ht. unfold append_block. simpl_state.
  destruct (Z.eqb_spec (tail st) NULL) as [_ | Hn];
    [apply lookup_insert_eq |].
  specialize (Ht Hn).
  destruct (<[brk st := Header s 0 NULL]> (hdrs st) !! tail st);
    [rewrite lookup_insert_ne by congruence |]; apply lookup_insert_eq.
Qed.

Lemma registry_append_block (s nb : Z) (st : state) (l : list Z) :
  registry st l -> brk st ∉ l -> brk st <> NULL ->
  registry (append_block s nb st) (l ++ [brk st]).
Proof.
  intros [Hc Ht] Hb Hbn. split.
  - unfold append_block. simpl_state. rewrite Ht.
    apply chain_snoc; assumption.
  - unfold append_block. simpl_state. rewrite last_snoc. reflexivity.
Qed.

Lemma registry_store_flags (st : state) (l : list Z) (b : Z) (h h' : header) :
  registry st l -> hdrs st !! b = Some h -> s_next h' = s_next h ->
  registry (store b h' st) l.
Proof.
  intros [Hc Ht] Hb Hn. split; [| exact Ht].
  simpl_state. eapply chain_insert_next; eassumption.
Qed.

(** ** Releasing an interior block *)

(** C4. When the byte after the payload of [block] is not the break,
    [free(block)] stores [is_free = 1] in the header of [block] and
    nothing else: [head], [tail], the break, the payload bytes and every
    other header object are the ones of the state before the call, and the
    [size] and [next] fields of the header of [block] are kept. *)
Theorem free_interior (block : Z) (h : header) (st : state) :
  block <> NULL ->
  hdrs st !! ((block - sizeof_header_t) mod modulus) = Some h ->
  (block + s_size h) mod modulus <> brk st ->
  free block st =
    Done (State (head st) (tail st)
            (<[(block - sizeof_header_t) mod modulus :=
                 Header (s_size h) 1 (s_next h)]> (hdrs st))
            (bytes st) (brk st) (brk_min st) (brk_max st)).
Proof.
  intros Hnn Hh Hint. unfold free.
  destruct (Z.eqb_spec block NULL) as [-> | _]; [contradiction |].
  rewrite sbrk_0. unfold load. rewrite Hh. cbn [mbind outcome_bind].
  destruct (Z.eqb_spec ((block + s_size h) mod modulus) (brk st)) as [He | _];
    [contradiction |].
  reflexivity.
Qed.

Lemma free_interior_witness :
  free 4120 st_two = Done st_two_free.
Proof.
  apply (free_interior 4120 (Header 64 0 4184) st_two);
    [unfold NULL; lia | reflexivity | vm_compute; discriminate].
Defined.

Lemma free_not_at_break (block : Z) (h : header) (st : state) :
  block <> NULL ->
  hdrs st !! ((block - sizeof_header_t) mod modulus) = Some h ->
  (block + s_size h) mod modulus <> brk st ->
  free block st =
    Done (store ((block - sizeof_header_t) mod modulus)
            (Header (s_size h) 1 (s_next h)) st).
Proof.
  intros Hnn Hh Hne. unfold free.
  destruct (Z.eqb_spec block NULL) as [He | _]; [contradiction |].
  rewrite sbrk_0, (load_Some _ h) by exact Hh. simpl_state.
  destruct (Z.eqb_spec ((block + s_size h) mod modulus) (brk st))
    as [He | _]; [contradiction | reflexivity].
Qed.

(** ** Releasing the block at the break *)

Lemma free_loop_NULL (fuel : nat) (st : state) :
  (0 < fuel)%nat -> free_loop fuel NULL st = Done st.
Proof. destruct fuel; [lia | reflexivity]. Qed.

Lemma free_loop_unlink (fuel : nat) (a : Z) (st : state) (l0 : list Z)
      (p c : Z) (hp : header) :
  chain (hdrs st) a (l0 ++ [p; c]) -> tail st = c -> c ∉ l0 ++ [p] ->
  hdrs st !! p = Some hp -> (length l0 + 2 <= fuel)%nat ->
  free_loop fuel a st =
    Done (set_tail p (store p (Header (s_size hp) (s_is_free hp) NULL) st)).
Proof.
  revert fuel a. induction l0 as [| x l0 IH]; intros fuel a Hc Ht Hnin Hp Hf.
  - cbn in Hc. apply chain_cons_inv in Hc as (-> & Hnn & hp' & Hhp' & Hc').
    rewrite Hp in Hhp'. injection Hhp' as <-.
    apply chain_cons_inv in Hc' as (Hnext & _).
    destruct fuel as [| fuel]; [cbn in Hf; lia |].
    cbn [free_loop].
    destruct (Z.eqb_spec p NULL) as [He | _]; [contradiction |].
    rewrite (load_Some p hp) by exact Hp. simpl_state.
    rewrite Hnext, Ht, Z.eqb_refl.
    rewrite (load_Some p (Header (s_size hp) (s_is_free hp) NULL))
      by (simpl_state; apply lookup_insert_eq).
    simpl_state. apply free_loop_NULL. cbn in Hf. lia.
  - cbn in Hc. apply chain_cons_inv in Hc as (-> & Hnn & hx & Hhx & Hc').
    destruct fuel as [| fuel]; [cbn in Hf; lia |].
    cbn [free_loop].
    destruct (Z.eqb_spec x NULL) as [He | _]; [contradiction |].
    rewrite (load_Some x hx) by exact Hhx. simpl_state.
    assert (Hne : s_next hx <> tail st).
    { intros He. apply Hnin. rewrite Ht in He. rewrite <- He.
      cbn. right.
      destruct l0; cbn in Hc'; apply chain_cons_inv in Hc' as (-> & _);
        left. }
    destruct (Z.eqb_spec (s_next hx) (tail st)) as [He | _]; [contradiction |].
    rewrite (load_Some x hx) by exact Hhx. simpl_state.
    apply IH; try assumption.
    + intros Hin. apply Hnin. cbn. right. exact Hin.
    + cbn in Hf. lia.
Qed.

(** The branch of [free] for a block that ends at the break, once the
    registry update [st1] is known. *)
Lemma free_at_break (c : Z) (hc hc1 : header) (st st1 : state) :
  0 < c -> 0 <= s_size hc ->
  c + sizeof_header_t + s_size hc = brk st -> brk st < 2 ^ 63 ->
  hdrs st !! c = Some hc ->
  (if head st =? tail st then Done (set_tail NULL (set_head NULL st))
   else free_loop (loop_fuel st) (head st) st) = Done st1 ->
  hdrs st1 !! c = Some hc1 -> s_size hc1 = s_size hc ->
  brk st1 = brk st -> brk_min st1 <= c -> c <= brk_max st1 ->
  free (c + sizeof_header_t) st = Done (set_brk c st1).
Proof.
  intros Hc0 Hsz Hend Hbrk Hhc Hupd Hhc1 Hsz1 Hb1 Hlo Hhi.
  unfold free.
  destruct (Z.eqb_spec (c + sizeof_header_t) NULL) as [He | _];
    [word_arith |].
  rewrite sbrk_0.
  replace ((c + sizeof_header_t - sizeof_header_t) mod modulus) with c
    by word_arith.
  rewrite (load_Some c hc) by exact Hhc. simpl_state.
  replace ((c + sizeof_header_t + s_size hc) mod modulus) with (brk st)
    by word_arith.
  rewrite Z.eqb_refl, Hupd. simpl_state.
  rewrite (load_Some c hc1) by exact Hhc1. simpl_state. rewrite Hsz1.
  destruct (sbrk_cases ((0 - sizeof_header_t - s_size hc) mod modulus) st1)
    as [[-> Hin] | [[-> H0] | [-> [Hd Hout]]]].
  - do 2 f_equal.
    destruct (to_intptr_cases ((0 - sizeof_header_t - s_size hc) mod modulus))
      as [[Hlt' Hi'] | [Hge' Hi']]; rewrite Hi' in *; word_arith.
  - exfalso. word_arith.
  - exfalso. apply Hout.
    destruct (to_intptr_cases ((0 - sizeof_header_t - s_size hc) mod modulus))
      as [[Hlt' Hi'] | [Hge' Hi']]; rewrite Hi' in *; word_arith.
Qed.

(** C2. In a well-formed state whose registry ends with the blocks [p]
    and then [c] (so it has at least two blocks, [c] is [tail] and [p] is
    the block whose [next] is [c]), if the byte after the payload of [c]
    is the break, then [free] of the payload of [c] stores [NULL] in the
    [next] of [p], makes [p] the tail and lowers the break by
    [sizeof(header_t)] plus the payload size of [c]; [head], the other
    headers and the payload bytes are kept. *)
Theorem free_tail_unlinks (st : state) (l0 : list Z) (p c : Z)
        (hp hc : header) :
  wf st (l0 ++ [p; c]) ->
  hdrs st !! p = Some hp -> hdrs st !! c = Some hc ->
  c + sizeof_header_t + s_size hc = brk st ->
  tail st = c /\ s_next hp = c /\
  free (c + sizeof_header_t) st =
    Done (State (head st) p
            (<[p := Header (s_size hp) (s_is_free hp) NULL]> (hdrs st))
            (bytes st) (brk st - (sizeof_header_t + s_size hc))
            (brk_min st) (brk_max st)).
Proof.
  intros [Hmin Hbrk Hmax [Hc Ht] Hl] Hp Hhc Hend.
  rewrite last_app in Ht. cbn in Ht.
  assert (Hnd : NoDup (l0 ++ [p; c])) by (eapply chain_NoDup, Hc).
  assert (Hcin : c ∈ l0 ++ [p; c]) by (rewrite elem_of_app; right; right; left).
  destruct (layout_elem _ _ _ c _ Hl Hcin) as (hc' & Hhc' & Hlo & Hsz & _).
  rewrite Hhc in Hhc'. injection Hhc' as <-.
  assert (Hpc : chain (hdrs st) p [p; c])
    by (eapply chain_suffix; exact Hc).
  assert (Hnext : s_next hp = c).
  { apply chain_cons_inv in Hpc as (_ & _ & hp' & Hhp' & Hc').
    rewrite Hp in Hhp'. injection Hhp' as <-.
    apply chain_cons_inv in Hc' as (Hn & _). exact Hn. }
  assert (Hnin : c ∉ l0 ++ [p]).
  { replace (l0 ++ [p; c]) with ((l0 ++ [p]) ++ [c]) in Hnd
      by (rewrite <- app_assoc; reflexivity).
    apply NoDup_app in Hnd as (_ & Hd & _).
    intros Hin. apply (Hd c Hin). left. }
  assert (Hhead : head st <> c).
  { intros He. apply Hnin. rewrite <- He.
    destruct l0; cbn in Hc; apply chain_cons_inv in Hc as (Hh0 & _);
      rewrite Hh0; cbn; left. }
  split; [exact Ht |]. split; [exact Hnext |].
  assert (Hcp : c <> p).
  { intros ->. apply Hnin. rewrite elem_of_app. right. left. }
  assert (Hupd : (if head st =? tail st
                  then Done (set_tail NULL (set_head NULL st))
                  else free_loop (loop_fuel st) (head st) st)
                 = Done (set_tail p
                           (store p (Header (s_size hp) (s_is_free hp) NULL)
                              st))).
  { rewrite Ht.
    destruct (Z.eqb_spec (head st) c) as [He | _]; [contradiction |].
    apply (free_loop_unlink (loop_fuel st) (head st) st l0 p c hp);
      try assumption.
    unfold loop_fuel. pose proof (chain_length _ _ _ Hc) as Hlen.
    rewrite length_app in Hlen. cbn in Hlen. lia. }
  rewrite (free_at_break c hc hc st _ ltac:(lia) Hsz Hend ltac:(lia) Hhc Hupd);
    simpl_state; try lia.
  - unfold set_brk. simpl_state. do 2 f_equal. lia.
  - rewrite lookup_insert_ne by congruence. exact Hhc.
  - unfold sizeof_header_t in *. lia.
Qed.

Lemma free_tail_unlinks_witness :
  tail st_two = 4184 /\ s_next (Header 64 0 4184) = 4184 /\
  free (4184 + sizeof_header_t) st_two =
    Done (State 4096 4096
            (<[4096 := Header 64 0 NULL]> (hdrs st_two))
            (bytes st_two) (4336 - (sizeof_header_t + 128)) 4096 65536).
Proof.
  apply (free_tail_unlinks st_two [] 4096 4184
           (Header 64 0 4184) (Header 128 0 NULL)).
  - wf_concrete.
  - reflexivity.
  - reflexivity.
  - reflexivity.
Defined.

(** ** [free] always returns on a registry *)

Lemma free_loop_total (fuel : nat) (a : Z) (st : state) (l : list Z) :
  chain (hdrs st) a l -> (length l < fuel)%nat ->
  exists st', free_loop fuel a st = Done st' /\
    bytes st' = bytes st /\ brk st' = brk st /\
    brk_min st' = brk_min st /\ brk_max st' = brk_max st /\
    forall x h, hdrs st !! x = Some h ->
      exists h', hdrs st' !! x = Some h' /\ s_size h' = s_size h.
Proof.
  intros Hc. revert fuel. induction Hc as [| a h l Hnn Hh Hc IH]; intros fuel Hf.
  - rewrite free_loop_NULL by lia. exists st. repeat split; eauto.
  - destruct fuel as [| fuel]; [cbn in Hf; lia |]. cbn in Hf.
    cbn [free_loop].
    destruct (Z.eqb_spec a NULL) as [He | _]; [contradiction |].
    rewrite (load_Some a h) by exact Hh. simpl_state.
    destruct (Z.eqb_spec (s_next h) (tail st)) as [He | Hne].
    + rewrite (load_Some a (Header (s_size h) (s_is_free h) NULL))
        by (simpl_state; apply lookup_insert_eq).
      simpl_state. rewrite free_loop_NULL by lia.
      eexists. split; [reflexivity |]. simpl_state.
      repeat (split; [reflexivity |]).
      intros x hx Hx. destruct (decide (x = a)) as [-> | Hxa].
      * rewrite lookup_insert_eq. rewrite Hh in Hx. injection Hx as <-.
        eexists. split; reflexivity.
      * rewrite lookup_insert_ne by congruence. eauto.
    + rewrite (load_Some a h) by exact Hh. simpl_state.
      apply IH. lia.
Qed.

Lemma free_total (block : Z) (h : header) (st : state) (l : list Z) :
  chain (hdrs st) (head st) l ->
  hdrs st !! ((block - sizeof_header_t) mod modulus) = Some h ->
  exists st', free block st = Done st' /\ bytes st' = bytes st.
Proof.
  intros Hc Hh. unfold free.
  destruct (Z.eqb_spec block NULL) as [He | _]; [eauto |].
  rewrite sbrk_0. rewrite (load_Some _ h) by exact Hh. simpl_state.
  destruct (_ =? brk st); [| eexists; split; reflexivity].
  destruct (head st =? tail st).
  - simpl_state.
    rewrite (load_Some _ h) by exact Hh. simpl_state.
    destruct (sbrk _ _) as [r st2] eqn:Hs.
    eexists. split; [reflexivity |].
    pose proof (sbrk_frame ((0 - sizeof_header_t - s_size h) mod modulus)
                  (set_tail NULL (set_head NULL st))) as (_ & _ & _ & Hb).
    rewrite Hs in Hb. exact Hb.
  - destruct (free_loop_total (loop_fuel st) (head st) st l Hc)
      as (st1 & -> & Hb1 & _ & _ & _ & Hdom).
    { unfold loop_fuel. pose proof (chain_length _ _ _ Hc). lia. }
    simpl_state. destruct (Hdom _ _ Hh) as (h' & Hh' & _).
    rewrite (load_Some _ h') by exact Hh'. simpl_state.
    destruct (sbrk _ _) as [r st2] eqn:Hs.
    eexists. split; [reflexivity |].
    pose proof (sbrk_frame ((0 - sizeof_header_t - s_size h') mod modulus)
                  st1) as (_ & _ & _ & Hb).
    rewrite Hs in Hb. cbn in Hb. congruence.
Qed.

(** ** [memcpy] on separate ranges *)

Lemma copy_byte_dst (dst src : Z) (m : gmap Z Z) :
  copy_byte dst src m !! dst = m !! src.
Proof.
  unfold copy_byte. destruct (m !! src) as [b |] eqn:Hs.
  - apply lookup_insert_eq.
  - apply lookup_delete_eq.
Qed.

Lemma copy_byte_other (dst src x : Z) (m : gmap Z Z) :
  x <> dst -> copy_byte dst src m !! x = m !! x.
Proof.
  intros Hne. unfold copy_byte. destruct (m !! src).
  - apply lookup_insert_ne. congruence.
  - apply lookup_delete_ne. congruence.
Qed.

Lemma memcpy_loop_frame (n : nat) (dst src x : Z) (m : gmap Z Z) :
  0 <= dst -> dst + Z.of_nat n < modulus ->
  x < dst \/ dst + Z.of_nat n <= x ->
  memcpy_loop n dst src m !! x = m !! x.
Proof.
  revert dst src m. induction n as [| n IH]; intros dst src m Hd Hn Hx;
    [reflexivity |].
  cbn [memcpy_loop]. rewrite (mod_small_word (dst + 1)) by lia.
  rewrite IH by lia. apply copy_byte_other. lia.
Qed.

Lemma memcpy_loop_copies (n : nat) (dst src i : Z) (m : gmap Z Z) :
  0 <= dst -> dst + Z.of_nat n < modulus ->
  0 <= src -> src + Z.of_nat n < modulus ->
  dst + Z.of_nat n <= src \/ src + Z.of_nat n <= dst ->
  0 <= i < Z.of_nat n ->
  memcpy_loop n dst src m !! (dst + i) = m !! (src + i).
Proof.
  revert dst src i m.
  induction n as [| n IH]; intros dst src i m Hd Hdn Hs Hsn Hsep Hi; [lia |].
  cbn [memcpy_loop].
  rewrite (mod_small_word (dst + 1)), (mod_small_word (src + 1)) by lia.
  destruct (Z.eq_dec i 0) as [-> | Hi0].
  - rewrite !Z.add_0_r. rewrite memcpy_loop_frame by lia.
    apply copy_byte_dst.
  - replace (dst + i) with (dst + 1 + (i - 1)) by lia.
    rewrite IH by lia.
    replace (src + 1 + (i - 1)) with (src + i) by lia.
    apply copy_byte_other. lia.
Qed.

(** ** Resize *)

(** C6. For a registered block with payload size smaller than the
    request [s], if the allocation made by [realloc] fails ([malloc(s)]
    returns [NULL]), then that [malloc] left the state as it was and
    [realloc] returns [NULL] with the state it was given: headers,
    payload bytes, [head], [tail] and the break are untouched. *)
Theorem realloc_failure_untouched (st st1 : state) (l : list Z) (a s : Z)
        (h : header) :
  wf st l -> a ∈ l -> hdrs st !! a = Some h ->
  s_size h < s < modulus ->
  malloc s st = Done (NULL, st1) ->
  st1 = st /\ realloc (a + sizeof_header_t) s st = Done (NULL, st).
Proof.
  intros Hwf Ha Hh Hs Hm.
  destruct (wf_block _ _ _ Hwf Ha) as (h' & Hh' & Hlo & Hsz & Hhi).
  rewrite Hh in Hh'. injection Hh' as <-.
  pose proof Hwf as [Hmin Hbrk Hmax [Hc Ht] Hl].
  assert (Hst : st1 = st).
  { destruct (first_fit_spec (hdrs st) s _ _ Hc)
      as [[Hff _] | (l1 & b & l2 & hb & -> & Hff & Hb & Hfit & _)].
    - rewrite (malloc_miss s st l) in Hm; try assumption; try lia.
      + cbv zeta in Hm.
        destruct (_ =? SBRK_FAILED) in Hm; [congruence |].
        exfalso. injection Hm as Hm _. word_arith.
      + apply (wf_brk_fresh _ _ Hwf).
      + apply (wf_tail _ _ Hwf).
    - assert (Hbin : b ∈ l1 ++ b :: l2)
        by (rewrite elem_of_app; right; left).
      destruct (wf_block _ _ _ Hwf Hbin) as (hb' & _ & Hblo & Hbsz & Hbhi).
      assert (Hbn : b <> NULL) by (eapply chain_lookup; eassumption).
      rewrite (malloc_hit s b hb st (l1 ++ b :: l2)) in Hm;
        try assumption; try lia.
      exfalso. injection Hm as Hm _. word_arith. }
  split; [exact Hst |]. subst st1.
  unfold realloc.
  destruct (Z.eqb_spec (a + sizeof_header_t) NULL) as [He | _];
    [word_arith |].
  destruct (Z.eqb_spec s 0) as [He | _]; [lia |]. cbn [orb].
  replace ((a + sizeof_header_t - sizeof_header_t) mod modulus) with a
    by word_arith.
  rewrite (load_Some a h) by exact Hh. simpl_state.
  destruct (Z.leb_spec s (s_size h)) as [Hle | _]; [lia |].
  rewrite Hm. reflexivity.
Qed.

Lemma realloc_failure_untouched_witness :
  st_two_full = st_two_full /\
  realloc (4096 + sizeof_header_t) 200 st_two_full = Done (NULL, st_two_full).
Proof.
  apply (realloc_failure_untouched st_two_full st_two_full [4096; 4184]
           4096 200 (Header 64 0 4184)).
  - wf_concrete.
  - left.
  - reflexivity.
  - cbn [s_size]. unfold modulus. lia.
  - vm_compute. reflexivity.
Defined.

(** ** Size of the header *)

Lemma header_t_ILP32 :
  Layout.header_t Layout.ILP32 = Layout.CType 16 4.
Proof. reflexivity. Qed.

(** C9, on the LP64 target.  The members [size], [is_free] and [next] take
    8 + 4 (+ 4 of padding) + 8 = 24 bytes; the 16-byte [stub] is the
    smaller member of the union and a [char] array asks for no alignment,
    so [sizeof(header_t)] is 24 with alignment 8: not a multiple of 16.
    The payload follows the header by that many bytes: with the break at
    4096, [malloc(1)] puts the header at 4096 and returns 4120. *)
Theorem header_t_LP64_not_16 :
  Layout.header_t Layout.LP64 = Layout.CType 24 8 /\
  sizeof_header_t = 24 /\
  sizeof_header_t mod 16 = 8 /\
  malloc 1 st_empty =
    Done (4096 + 24,
          State 4096 4096 {[ 4096 := Header 1 0 NULL ]} ∅ 4121 4096 65536).
Proof. repeat split; vm_compute; reflexivity. Qed.

(** ** Registry consistency *)

(** In a consistent registry the [next] of [tail] is empty, and [tail] is
    on the chain from [head]. *)
Lemma registry_consistent_tail (st : state) :
  registry_consistent st -> head st <> NULL ->
  exists h, hdrs st !! tail st = Some h /\ s_next h = NULL.
Proof.
  intros [_ Hex] Hn. destruct (Hex Hn) as (l & Hc & Hl & _).
  eapply chain_tail_next; eassumption.
Qed.

Lemma registry_is_consistent (st : state) (l : list Z) :
  registry st l -> registry_consistent st.
Proof.
  intros [Hc Ht]. split.
  - rewrite Ht. destruct Hc as [| a h l Hnn Hh Hc]; [tauto |].
    split; [contradiction |]. intros He. exfalso.
    assert (Hin : default NULL (last (a :: l)) ∈ a :: l).
    { destruct (last (a :: l)) as [t |] eqn:Hl.
      - apply last_Some_elem_of. exact Hl.
      - apply last_None in Hl. discriminate. }
    rewrite He in Hin.
    eapply (chain_lookup _ a NULL (a :: l)); [| exact Hin | reflexivity].
    econstructor; eassumption.
  - intros Hn. exists l. split; [exact Hc |].
    split; [| eapply chain_NoDup; exact Hc].
    rewrite Ht. destruct (last l) as [t |] eqn:Hl; [reflexivity |].
    apply last_None in Hl. subst l. apply chain_nil_inv in Hc. contradiction.
Qed.

(** C10, at a request whose total size wraps.  [st_two] is well formed.
    [malloc(2^64 - 24)] makes [total_size] wrap to 0, so [sbrk(0)] returns
    the break without moving it and the header of the new tail is written
    there; the next [malloc(1)] is given the same address by [sbrk],
    rewrites that header and links [tail->next] to the tail itself.  The
    registry is consistent before and after the first call and is not
    after the second: the [next] of [tail] is [tail], and the following
    search does not come back. *)
Theorem registry_broken_by_wrapped_size :
  wf st_two [4096; 4184] /\
  malloc (modulus - sizeof_header_t) st_two
    = Done (4336 + sizeof_header_t, st_two_wrapped) /\
  registry_consistent st_two_wrapped /\
  malloc 1 st_two_wrapped = Done (4336 + sizeof_header_t, st_two_looped) /\
  ~ registry_consistent st_two_looped /\
  malloc 1 st_two_looped = Diverge.
Proof.
  split; [| split; [| split; [| split; [| split]]]].
  - wf_concrete.
  - vm_compute. reflexivity.
  - apply (registry_is_consistent _ [4096; 4184; 4336]).
    split; [chain_concrete | reflexivity].
  - vm_compute. reflexivity.
  - intros Hcons.
    destruct (registry_consistent_tail _ Hcons ltac:(discriminate))
      as (h & Hh & Hnext).
    vm_compute in Hh. injection Hh as <-. discriminate.
  - vm_compute. reflexivity.
Qed.

(** ** Requests whose total size wraps *)



(** ** The states [malloc] and [free] produce *)

Lemma wf_store_flags (st : state) (l : list Z) (b : Z) (hb h' : header) :
  wf st l -> hdrs st !! b = Some hb ->
  s_size h' = s_size hb -> s_next h' = s_next hb ->
  wf (store b h' st) l.
Proof.
  intros [Hmin Hbrk Hmax Hreg Hl] Hb Hsz Hn. constructor; try assumption.
  - eapply registry_store_flags; eassumption.
  - eapply layout_ext; [exact Hl |]. intros y hy _ Hy.
    eapply store_lookup_size; eassumption.
Qed.

Lemma wf_append_block (s : Z) (st : state) (l : list Z) :
  wf st l -> 0 <= s ->
  brk st + (sizeof_header_t + s) <= brk_max st ->
  wf (append_block s (brk st + (sizeof_header_t + s)) st) (l ++ [brk st]).
Proof.
  intros Hwf Hs Hroom.
  pose proof Hwf as [Hmin Hbrk Hmax Hreg Hl].
  destruct (wf_brk_fresh _ _ Hwf) as (Hfresh & Hbn & _).
  constructor; try assumption.
  - unfold append_block. simpl_state. unfold sizeof_header_t in *. lia.
  - apply registry_append_block; assumption.
  - apply layout_app. exists (brk st). split.
    + eapply layout_ext; [exact Hl |]. intros x h Hx Hh.
      apply (append_block_lookup s _ x h st); [| exact Hh].
      intros ->. contradiction.
    + cbn [layout]. split; [lia |]. exists (Header s 0 NULL). split.
      * apply append_block_new. intros Hn. apply (wf_tail _ _ Hwf Hn).
      * unfold append_block. simpl_state. lia.
Qed.

Lemma wf_drop_only (st : state) (a : Z) :
  wf st [a] -> wf (set_brk a (set_tail NULL (set_head NULL st))) [].
Proof.
  intros Hwf.
  destruct (wf_block _ _ a Hwf ltac:(left)) as (h & _ & Hlo & Hsz & Hhi).
  destruct Hwf as [Hmin Hbrk Hmax _ _].
  constructor; simpl_state; try assumption.
  - unfold sizeof_header_t in *. lia.
  - split; [constructor | reflexivity].
Qed.

Lemma wf_drop_last (st : state) (l0 : list Z) (p a : Z) (hp : header) :
  wf st (l0 ++ [p; a]) -> hdrs st !! p = Some hp ->
  wf (set_brk a
        (set_tail p (store p (Header (s_size hp) (s_is_free hp) NULL) st)))
     (l0 ++ [p]).
Proof.
  intros Hwf Hp.
  assert (Hain : a ∈ l0 ++ [p; a]) by (rewrite elem_of_app; right; right; left).
  destruct (wf_block _ _ a Hwf Hain) as (h & _ & Hlo & Hsz & Hhi).
  destruct Hwf as [Hmin Hbrk Hmax [Hc Ht] Hl].
  constructor; simpl_state; try assumption.
  - unfold sizeof_header_t in *. lia.
  - split; simpl_state.
    + apply (chain_drop_last _ _ p a); assumption.
    + rewrite last_snoc. reflexivity.
  - replace (l0 ++ [p; a]) with ((l0 ++ [p]) ++ [a]) in Hl
      by (rewrite <- app_assoc; reflexivity).
    apply layout_app in Hl as (mid & H1 & H2).
    cbn in H2. destruct H2 as (Hmid & _).
    eapply layout_ext; [eapply layout_weaken; [exact H1 | exact Hmid] |].
    intros y hy _ Hy. destruct (decide (y = p)) as [-> | Hne].
    + rewrite lookup_insert_eq. rewrite Hp in Hy. injection Hy as <-. eauto.
    + rewrite lookup_insert_ne by congruence. eauto.
Qed.

(** The three ways [malloc] ends on a well-formed state, for a request
    whose total size stays below [2^63]. *)
Lemma malloc_cases (s : Z) (st : state) (l : list Z) :
  wf st l -> 0 < s -> sizeof_header_t + s < 2 ^ 63 ->
  (exists l1 b l2 hb,
     l = l1 ++ b :: l2 /\
     Forall (fun x => forall hx, hdrs st !! x = Some hx ->
                                 fits s hx = false) l1 /\
     hdrs st !! b = Some hb /\ fits s hb = true /\
     malloc s st =
       Done (b + sizeof_header_t,
             store b (Header (s_size hb) 0 (s_next hb)) st)) \/
  (Forall (fun x => forall hx, hdrs st !! x = Some hx ->
                               fits s hx = false) l /\
   brk_max st < brk st + (sizeof_header_t + s) /\
   malloc s st = Done (NULL, st)) \/
  (Forall (fun x => forall hx, hdrs st !! x = Some hx ->
                               fits s hx = false) l /\
   brk st + (sizeof_header_t + s) <= brk_max st /\
   malloc s st =
     Done (brk st + sizeof_header_t,
           append_block s (brk st + (sizeof_header_t + s)) st)).
Proof.
  intros Hwf Hs Hsmall.
  pose proof Hwf as [Hmin Hbrk Hmax [Hc Ht] Hl].
  destruct (wf_brk_fresh _ _ Hwf) as (Hfresh & Hbn & Hbf).
  destruct (first_fit_spec (hdrs st) s _ _ Hc)
    as [[Hff Hall] | (l1 & b & l2 & hb & El & Hff & Hb & Hfit & Hall)].
  - right.
    pose proof (malloc_miss s st l ltac:(lia) Hc Hff Hbf (wf_tail _ _ Hwf))
      as Hm.
    cbv zeta in Hm.
    assert (Hi : to_intptr ((sizeof_header_t + s) mod modulus)
                 = sizeof_header_t + s)
      by (destruct (to_intptr_cases ((sizeof_header_t + s) mod modulus))
            as [[Hlt' Hi'] | [Hge' Hi']]; rewrite Hi'; word_arith).
    destruct (sbrk_cases ((sizeof_header_t + s) mod modulus) st)
      as [[Hsb Hin] | [[Hsb H0] | [Hsb [_ Hout]]]];
      rewrite Hsb in Hm; simpl_state; rewrite ?Hi in *.
    + right. split; [exact Hall |]. split; [unfold sizeof_header_t in *; lia |].
      destruct (Z.eqb_spec (brk st) SBRK_FAILED) as [He | _];
        [contradiction |].
      rewrite Hm. do 2 f_equal. word_arith.
    + exfalso. word_arith.
    + left. split; [exact Hall |]. split; [unfold sizeof_header_t in *; lia |].
      change (SBRK_FAILED =? SBRK_FAILED) with true in Hm. exact Hm.
  - left. exists l1, b, l2, hb.
    assert (Hbin : b ∈ l) by (rewrite El, elem_of_app; right; left).
    destruct (wf_block _ _ _ Hwf Hbin) as (hb' & Hhb' & Hblo & Hbsz & Hbhi).
    assert (Hbnn : b <> NULL) by (eapply chain_lookup; eassumption).
    repeat (split; [assumption |]).
    rewrite (malloc_hit s b hb st l ltac:(lia) Hc Hff Hbnn Hb).
    do 2 f_equal. word_arith.
Qed.

(** The three ways [free] ends on a registered block of a well-formed
    state. *)
Lemma free_cases (st : state) (l : list Z) (a : Z) (h : header) :
  wf st l -> a ∈ l -> hdrs st !! a = Some h ->
  (a + sizeof_header_t + s_size h <> brk st /\
   free (a + sizeof_header_t) st =
     Done (store a (Header (s_size h) 1 (s_next h)) st)) \/
  (a + sizeof_header_t + s_size h = brk st /\ l = [a] /\
   free (a + sizeof_header_t) st =
     Done (set_brk a (set_tail NULL (set_head NULL st)))) \/
  (a + sizeof_header_t + s_size h = brk st /\
   exists l0 p hp,
     l = l0 ++ [p; a] /\ hdrs st !! p = Some hp /\
     free (a + sizeof_header_t) st =
       Done (set_brk a
               (set_tail p
                  (store p (Header (s_size hp) (s_is_free hp) NULL) st)))).
Proof.
  intros Hwf Ha Hh.
  destruct (wf_block _ _ _ Hwf Ha) as (h' & Hh' & Hlo & Hsz & Hhi).
  rewrite Hh in Hh'. injection Hh' as <-.
  pose proof Hwf as [Hmin Hbrk Hmax [Hc Ht] Hl].
  destruct (Z.eq_dec (a + sizeof_header_t + s_size h) (brk st)) as [Hend | Hmid].
  - right.
    destruct (layout_last_at_break _ _ _ a h l Hl Ha Hh Hend) as (l0 & ->).
    rewrite last_snoc in Ht. cbn in Ht.
    destruct l0 as [| x l0 _] using rev_ind.
    + left. split; [exact Hend |]. split; [reflexivity |].
      cbn in Hc. apply chain_cons_inv in Hc as (Hhd & Hnn & _).
      assert (Hupd : (if head st =? tail st
                      then Done (set_tail NULL (set_head NULL st))
                      else free_loop (loop_fuel st) (head st) st)
                     = Done (set_tail NULL (set_head NULL st)))
        by (rewrite Hhd, Ht, Z.eqb_refl; reflexivity).
      apply (free_at_break a h h st _ ltac:(lia) Hsz Hend ltac:(lia) Hh Hupd);
        simpl_state; try reflexivity; try assumption.
      unfold sizeof_header_t in *. lia.
    + right. split; [exact Hend |].
      rewrite <- app_assoc in Hc, Hl. cbn [app] in Hc, Hl.
      assert (Hnd : NoDup (l0 ++ [x; a])) by (eapply chain_NoDup, Hc).
      assert (Hnin : a ∉ l0 ++ [x]).
      { replace (l0 ++ [x; a]) with ((l0 ++ [x]) ++ [a]) in Hnd
          by (rewrite <- app_assoc; reflexivity).
        apply NoDup_app in Hnd as (_ & Hd & _).
        intros Hin. apply (Hd a Hin). left. }
      assert (Hxin : x ∈ l0 ++ [x; a]) by (rewrite elem_of_app; right; left).
      destruct (layout_elem _ _ _ x _ Hl Hxin) as (hx & Hhx & _).
      assert (Hax : a <> x).
      { intros ->. apply Hnin. rewrite elem_of_app. right. left. }
      assert (Hhead : head st <> a).
      { intros He. apply Hnin. rewrite <- He.
        destruct l0; cbn in Hc; apply chain_cons_inv in Hc as (Hh0 & _);
          rewrite Hh0; cbn; left. }
      assert (Hupd : (if head st =? tail st
                      then Done (set_tail NULL (set_head NULL st))
                      else free_loop (loop_fuel st) (head st) st)
                     = Done (set_tail x
                               (store x (Header (s_size hx) (s_is_free hx) NULL)
                                  st))).
      { rewrite Ht.
        destruct (Z.eqb_spec (head st) a) as [He | _]; [contradiction |].
        apply (free_loop_unlink (loop_fuel st) (head st) st l0 x a hx);
          try assumption.
        unfold loop_fuel. pose proof (chain_length _ _ _ Hc) as Hlen.
        rewrite length_app in Hlen. cbn in Hlen. lia. }
      exists l0, x, hx. split; [rewrite <- app_assoc; reflexivity |].
      split; [exact Hhx |].
      apply (free_at_break a h h st _ ltac:(lia) Hsz Hend ltac:(lia) Hh Hupd);
        simpl_state; try reflexivity; try assumption.
      * rewrite lookup_insert_ne by congruence. exact Hh.
      * unfold sizeof_header_t in *. lia.
  - left. split; [exact Hmid |].
    rewrite (free_not_at_break (a + sizeof_header_t) h st).
    + replace ((a + sizeof_header_t - sizeof_header_t) mod modulus) with a
        by word_arith. reflexivity.
    + word_arith.
    + replace ((a + sizeof_header_t - sizeof_header_t) mod modulus) with a
        by word_arith. exact Hh.
    + word_arith.
Qed.
(** ** Well-formedness is kept while sizes do not wrap *)

(** [malloc] returns on every well-formed state and, when the total size
    [sizeof(header_t) + s] stays below [2^63], leaves a well-formed state:
    the registry is the old one, possibly with one block appended, the
    registered headers keep their sizes and no payload byte changes. *)
Theorem malloc_keeps_wf (s : Z) (st : state) (l : list Z) :
  wf st l -> 0 < s -> sizeof_header_t + s < 2 ^ 63 ->
  exists p st' l',
    malloc s st = Done (p, st') /\ wf st' l' /\
    (p = NULL \/ exists a, a ∈ l' /\ p = a + sizeof_header_t) /\
    (forall x, x ∈ l -> x ∈ l') /\
    (forall x h, x ∈ l -> hdrs st !! x = Some h ->
       exists h', hdrs st' !! x = Some h' /\ s_size h' = s_size h) /\
    bytes st' = bytes st.
Proof.
  intros Hwf Hs Hsmall.
  destruct (wf_brk_fresh _ _ Hwf) as (Hfresh & _).
  destruct (malloc_cases s st l Hwf Hs Hsmall)
    as [(l1 & b & l2 & hb & El & _ & Hb & _ & Hm)
       | [(_ & _ & Hm) | (_ & Hroom & Hm)]].
  - exists (b + sizeof_header_t),
           (store b (Header (s_size hb) 0 (s_next hb)) st), l.
    split; [exact Hm |].
    split; [eapply wf_store_flags; [exact Hwf | exact Hb | reflexivity..] |].
    split; [right; exists b; split; [| reflexivity];
            rewrite El, elem_of_app; right; left |].
    split; [auto |]. split; [| reflexivity].
    intros x h _ Hh.
    eapply store_lookup_size; [exact Hb | reflexivity | exact Hh].
  - exists NULL, st, l. split; [exact Hm |]. split; [exact Hwf |].
    split; [left; reflexivity |]. split; [auto |]. split; [eauto | auto].
  - exists (brk st + sizeof_header_t),
           (append_block s (brk st + (sizeof_header_t + s)) st),
           (l ++ [brk st]).
    split; [exact Hm |].
    split; [apply wf_append_block; [exact Hwf | lia | exact Hroom] |].
    split; [right; exists (brk st); split; [| reflexivity];
            rewrite elem_of_app; right; left |].
    split; [intros x Hx; rewrite elem_of_app; left; exact Hx |].
    split; [| reflexivity].
    intros x h Hx Hh. apply (append_block_lookup s _ x h st); [| exact Hh].
    intros ->. contradiction.
Qed.

(** [free] of the payload of a registered block returns and leaves a
    well-formed state; no payload byte changes. *)
Theorem free_keeps_wf (st : state) (l : list Z) (a : Z) :
  wf st l -> a ∈ l ->
  exists st' l',
    free (a + sizeof_header_t) st = Done st' /\ wf st' l' /\
    bytes st' = bytes st.
Proof.
  intros Hwf Ha.
  destruct (wf_block _ _ _ Hwf Ha) as (h & Hh & _).
  destruct (free_cases st l a h Hwf Ha Hh)
    as [(_ & Hf) | [(_ & -> & Hf) | (_ & l0 & p & hp & -> & Hp & Hf)]].
  - eexists _, l. split; [exact Hf |]. split; [| reflexivity].
    eapply wf_store_flags; [exact Hwf | exact Hh | reflexivity..].
  - eexists _, []. split; [exact Hf |]. split; [| reflexivity].
    apply wf_drop_only. exact Hwf.
  - eexists _, (l0 ++ [p]). split; [exact Hf |]. split; [| reflexivity].
    apply wf_drop_last; assumption.
Qed.

(** [calloc] likewise, when the total size stays below [2^63]. *)
Theorem calloc_keeps_wf (num nsize : Z) (st : state) (l : list Z) :
  wf st l -> 0 <= num -> 0 <= nsize ->
  sizeof_header_t + num * nsize < 2 ^ 63 ->
  exists p st' l', calloc num nsize st = Done (p, st') /\ wf st' l'.
Proof.
  intros Hwf Hnum Hns Hsmall. unfold calloc.
  destruct (Z.eqb_spec num 0) as [-> | Hn0]; [cbn [orb]; eauto |].
  destruct (Z.eqb_spec nsize 0) as [-> | Hs0]; [cbn [orb]; eauto |].
  cbn [orb].
  assert (Hpos : 0 < num * nsize) by nia.
  rewrite (mod_small_word (num * nsize)) by word_arith.
  rewrite Z.mul_comm, Z.div_mul, Z.eqb_refl by lia. cbn [negb].
  rewrite Z.mul_comm.
  destruct (malloc_keeps_wf (num * nsize) st l Hwf Hpos Hsmall)
    as (p & st1 & l1 & -> & Hwf1 & _).
  simpl_state. destruct (p =? NULL); [eauto |].
  do 3 eexists. split; [reflexivity |]. apply wf_set_bytes. exact Hwf1.
Qed.

(** [realloc] of a registered block likewise. *)
Theorem realloc_keeps_wf (s a : Z) (st : state) (l : list Z) :
  wf st l -> a ∈ l -> 0 <= s -> sizeof_header_t + s < 2 ^ 63 ->
  exists p st' l',
    realloc (a + sizeof_header_t) s st = Done (p, st') /\ wf st' l'.
Proof.
  intros Hwf Ha Hs Hsmall.
  destruct (wf_block _ _ _ Hwf Ha) as (h & Hh & Hlo & Hsz & Hhi).
  pose proof Hwf as [Hmin Hbrk Hmax _ _].
  unfold realloc.
  destruct (Z.eqb_spec (a + sizeof_header_t) NULL) as [He | _];
    [word_arith |].
  destruct (Z.eqb_spec s 0) as [-> | Hs0]; [cbn [orb]; eauto |].
  cbn [orb].
  replace ((a + sizeof_header_t - sizeof_header_t) mod modulus) with a
    by word_arith.
  rewrite (load_Some a h) by exact Hh. simpl_state.
  destruct (s <=? s_size h); [eauto |].
  destruct (malloc_keeps_wf s st l Hwf ltac:(lia) Hsmall)
    as (p & st1 & l1 & -> & Hwf1 & _ & Hsub & Hold & _).
  simpl_state. destruct (p =? NULL); [eauto |]. cbn [negb].
  destruct (Hold a h Ha Hh) as (h1 & Hh1 & _).
  rewrite (load_Some a h1) by exact Hh1. simpl_state.
  destruct (free_keeps_wf (memcpy p (a + sizeof_header_t) (s_size h1) st1)
              l1 a) as (st3 & l3 & -> & Hwf3 & _).
  { apply wf_set_bytes. exact Hwf1. }
  { apply Hsub. exact Ha. }
  simpl_state. eauto.
Qed.

(** A well-formed state has a consistent registry; so has the state at
    process start. *)
Lemma wf_registry_consistent (st : state) (l : list Z) :
  wf st l -> registry_consistent st.
Proof. intros Hwf. eapply registry_is_consistent. apply Hwf. Qed.

(** From a well-formed state, every operation whose total size stays
    below [2^63] returns and leaves the registry consistent. *)
Theorem bounded_requests_keep_registry_consistent (st : state) (l : list Z) :
  wf st l ->
  (forall s, 0 < s -> sizeof_header_t + s < 2 ^ 63 ->
     exists p st', malloc s st = Done (p, st') /\ registry_consistent st') /\
  (forall a, a ∈ l ->
     exists st', free (a + sizeof_header_t) st = Done st' /\
                 registry_consistent st') /\
  (forall num nsize, 0 <= num -> 0 <= nsize ->
     sizeof_header_t + num * nsize < 2 ^ 63 ->
     exists p st', calloc num nsize st = Done (p, st') /\
                   registry_consistent st') /\
  (forall a s, a ∈ l -> 0 <= s -> sizeof_header_t + s < 2 ^ 63 ->
     exists p st', realloc (a + sizeof_header_t) s st = Done (p, st') /\
                   registry_consistent st').
Proof.
  intros Hwf. repeat split.
  - intros s Hs Hsmall.
    destruct (malloc_keeps_wf s st l Hwf Hs Hsmall)
      as (p & st' & l' & Hm & Hwf' & _).
    exists p, st'. split; [exact Hm |]. eapply wf_registry_consistent, Hwf'.
  - intros a Ha.
    destruct (free_keeps_wf st l a Hwf Ha) as (st' & l' & Hf & Hwf' & _).
    exists st'. split; [exact Hf |]. eapply wf_registry_consistent, Hwf'.
  - intros num nsize Hnum Hns Hsmall.
    destruct (calloc_keeps_wf num nsize st l Hwf Hnum Hns Hsmall)
      as (p & st' & l' & Hm & Hwf').
    exists p, st'. split; [exact Hm |]. eapply wf_registry_consistent, Hwf'.
  - intros a s Ha Hs Hsmall.
    destruct (realloc_keeps_wf s a st l Hwf Ha Hs Hsmall)
      as (p & st' & l' & Hm & Hwf').
    exists p, st'. split; [exact Hm |]. eapply wf_registry_consistent, Hwf'.
Qed.

(** ** Scenarios of the specification, run on the model *)

(** Reuse: with [A] (64 bytes) and [B] (128 bytes) allocated in that
    order, after [free(A)] a request for 32 bytes returns the address of
    [A] and the break does not move. *)
Example reuse_scenario :
  ('(a, s1) ← malloc 64 st_empty;
   '(b, s2) ← malloc 128 s1;
   s3 ← free a s2;
   '(c, s4) ← malloc 32 s3;
   Done (a, b, c, brk s2, brk s4))
  = Done (4120, 4208, 4120, 4336, 4336).
Proof. vm_compute. reflexivity. Qed.

(** No coalescing: two adjacent interior free blocks of 64 bytes do not
    serve a request for 100 bytes; the region grows. *)
Example no_coalescing_scenario :
  ('(a, s1) ← malloc 64 st_empty;
   '(b, s2) ← malloc 64 s1;
   '(c, s3) ← malloc 8 s2;
   s4 ← free a s3;
   s5 ← free b s4;
   '(d, s6) ← malloc 100 s5;
   Done (a, b, c, d, brk s5, brk s6))
  = Done (4120, 4208, 4296, 4328, 4304, 4428).
Proof. vm_compute. reflexivity. Qed.

(** Tail shrink: with [A], [B], [C] appended in order, [free(C)] lowers
    the break by 24 + 16 and makes [B] the tail; [free(B)] then lowers it
    again. *)
Example tail_shrink_scenario :
  ('(a, s1) ← malloc 64 st_empty;
   '(b, s2) ← malloc 128 s1;
   '(c, s3) ← malloc 16 s2;
   s4 ← free c s3;
   s5 ← free b s4;
   Done (brk s3, brk s4, tail s4, brk s5, tail s5))
  = Done (4376, 4336, 4184, 4184, 4096).
Proof. vm_compute. reflexivity. Qed.

(** Resize: the four bytes of [A] in [st_two] are found again at the
    start of the block [realloc] returns, and [A] is marked free. *)
Example resize_scenario :
  ('(r, s1) ← realloc 4120 200 st_two;
   Done (r, bytes s1 !! r, bytes s1 !! (r + 1), bytes s1 !! (r + 2),
         bytes s1 !! (r + 3), hdrs s1 !! 4096))
  = Done (4360, Some 1, Some 2, Some 3, Some 4, Some (Header 64 1 4184)).
Proof. vm_compute. reflexivity. Qed.

(** ** The search on a registry *)

(** X1. On a registry chain the search of [get_free_block] returns: it
    gives [NULL] exactly when no block of the registry is free and large
    enough, and otherwise a block of the registry that is free and large
    enough. *)
Theorem get_free_block_result (s : Z) (st : state) (l : list Z) :
  chain (hdrs st) (head st) l ->
  exists r,
    get_free_block s st = Done r /\
    (r = NULL <->
     Forall (fun x => forall hx, hdrs st !! x = Some hx ->
                                 ~ (s_is_free hx = 1 /\ s <= s_size hx)) l) /\
    (r <> NULL ->
     r ∈ l /\ exists h, hdrs st !! r = Some h /\
                        s_is_free h = 1 /\ s <= s_size h).
Proof.
  intros Hc. exists (first_fit (hdrs st) s l).
  split; [apply get_free_block_first_fit, Hc |].
  destruct (first_fit_spec (hdrs st) s _ _ Hc)
    as [[Hff Hall] | (l1 & b & l2 & hb & El & Hff & Hb & Hfit & _)].
  - rewrite Hff. split; [| intros Hn; contradiction].
    split; [| reflexivity]. intros _.
    eapply Forall_impl; [exact Hall |]. cbn. intros x Hx hx Hhx.
    apply fits_false. auto.
  - rewrite Hff.
    assert (Hbin : b ∈ l) by (rewrite El, elem_of_app; right; left).
    assert (Hbn : b <> NULL) by (eapply chain_lookup; eassumption).
    apply fits_true in Hfit. split.
    + split; [contradiction |]. intros Hall. exfalso.
      rewrite Forall_forall in Hall. exact (Hall b Hbin hb Hb Hfit).
    + intros _. split; [exact Hbin |]. exists hb. tauto.
Qed.

Lemma get_free_block_result_witness :
  exists r,
    get_free_block 100 st_two_free = Done r /\
    (r = NULL <->
     Forall (fun x => forall hx, hdrs st_two_free !! x = Some hx ->
                                 ~ (s_is_free hx = 1 /\ 100 <= s_size hx))
       [4096; 4184]) /\
    (r <> NULL ->
     r ∈ [4096; 4184] /\
     exists h, hdrs st_two_free !! r = Some h /\
               s_is_free h = 1 /\ 100 <= s_size h).
Proof.
  apply (get_free_block_result 100 st_two_free [4096; 4184]).
  chain_concrete.
Defined.

(** ** What [malloc] and [free] leave alone *)

(** A header at [x], a registered address or the break, does not reach
    into the payload of any registered block. *)
Lemma header_outside_payloads (st : state) (l : list Z) (x : Z) :
  wf st l -> x ∈ l \/ x = brk st ->
  forall c hc, c ∈ l -> hdrs st !! c = Some hc ->
    x + sizeof_header_t <= c + sizeof_header_t \/
    c + sizeof_header_t + s_size hc <= x.
Proof.
  intros Hwf Hx c hc Hc Hhc.
  destruct (wf_block _ _ _ Hwf Hc) as (hc' & Hhc' & _ & Hsz & Hhi).
  rewrite Hhc in Hhc'. injection Hhc' as <-.
  destruct Hx as [Hx | ->]; [| right; exact Hhi].
  destruct (Z.eq_dec x c) as [-> | Hne]; [left; lia |].
  destruct (wf_block _ _ _ Hwf Hx) as (hx & Hhx & _ & Hxsz & _).
  destruct (layout_disjoint (hdrs st) _ _ x c hx hc l
              ltac:(apply Hwf) Hx Hc Hne Hhx Hhc) as [Hd | Hd].
  - left. unfold sizeof_header_t in *. lia.
  - right. exact Hd.
Qed.

Lemma malloc_untouched (s p : Z) (st st' : state) (l : list Z) :
  wf st l -> 0 < s -> sizeof_header_t + s < 2 ^ 63 ->
  malloc s st = Done (p, st') ->
  forall x, x ∉ l -> x <> brk st -> hdrs st' !! x = hdrs st !! x.
Proof.
  intros Hwf Hs Hsmall Hm x Hxl Hxb.
  destruct (malloc_cases s st l Hwf Hs Hsmall)
    as [(l1 & b & l2 & hb & El & _ & Hb & _ & Hm')
       | [(_ & _ & Hm') | (_ & _ & Hm')]];
    rewrite Hm' in Hm; injection Hm as _ <-.
  - simpl_state. apply lookup_insert_ne. intros <-. apply Hxl.
    rewrite El, elem_of_app. right. left.
  - reflexivity.
  - unfold append_block. simpl_state.
    destruct (Z.eqb_spec (tail st) NULL) as [_ | Hn].
    + apply lookup_insert_ne. congruence.
    + assert (Hxt : tail st <> x).
      { intros <-. apply Hxl. eapply registry_tail_in; [apply Hwf | exact Hn]. }
      destruct (<[brk st := Header s 0 NULL]> (hdrs st) !! tail st).
      * rewrite !lookup_insert_ne by congruence. reflexivity.
      * apply lookup_insert_ne. congruence.
Qed.

Lemma free_untouched (st st' : state) (l : list Z) (a : Z) :
  wf st l -> a ∈ l -> free (a + sizeof_header_t) st = Done st' ->
  forall x, x ∉ l -> hdrs st' !! x = hdrs st !! x.
Proof.
  intros Hwf Ha Hf x Hxl.
  destruct (wf_block _ _ _ Hwf Ha) as (h & Hh & _).
  destruct (free_cases st l a h Hwf Ha Hh)
    as [(_ & Hf') | [(_ & El & Hf') | (_ & l0 & p & hp & El & Hp & Hf')]];
    rewrite Hf' in Hf; injection Hf as <-.
  - simpl_state. apply lookup_insert_ne. intros <-. contradiction.
  - reflexivity.
  - simpl_state. apply lookup_insert_ne. intros <-. apply Hxl.
    rewrite El, elem_of_app. right. left.
Qed.

(** X2. On a well-formed state, [malloc] (total size below [2^63]) does
    not write into the payload of any registered block: every header it
    changes lies, with its 24 bytes, outside the payload of every
    registered block, and the payload bytes of the registered blocks are
    as before the call. *)
Theorem malloc_keeps_payloads (s p : Z) (st st' : state) (l : list Z) :
  wf st l -> 0 < s -> sizeof_header_t + s < 2 ^ 63 ->
  malloc s st = Done (p, st') ->
  (forall x, hdrs st' !! x <> hdrs st !! x ->
     forall c hc, c ∈ l -> hdrs st !! c = Some hc ->
       x + sizeof_header_t <= c + sizeof_header_t \/
       c + sizeof_header_t + s_size hc <= x) /\
  (forall c hc i, c ∈ l -> hdrs st !! c = Some hc -> 0 <= i < s_size hc ->
     bytes st' !! (c + sizeof_header_t + i)
       = bytes st !! (c + sizeof_header_t + i)).
Proof.
  intros Hwf Hs Hsmall Hm. split.
  - intros x Hx. apply (header_outside_payloads st l x Hwf).
    destruct (decide (x ∈ l)) as [Hin | Hnin]; [left; exact Hin |].
    destruct (Z.eq_dec x (brk st)) as [He | Hne]; [right; exact He |].
    exfalso. apply Hx.
    apply (malloc_untouched s p st st' l Hwf Hs Hsmall Hm x Hnin Hne).
  - intros c hc i _ _ _.
    destruct (malloc_keeps_wf s st l Hwf Hs Hsmall)
      as (p' & st'' & l' & Hm' & _ & _ & _ & _ & Hb).
    rewrite Hm' in Hm. injection Hm as _ <-. rewrite Hb. reflexivity.
Qed.

Lemma malloc_keeps_payloads_witness :
  (forall x, hdrs st_three !! x <> hdrs st_two !! x ->
     forall c hc, c ∈ [4096; 4184] -> hdrs st_two !! c = Some hc ->
       x + sizeof_header_t <= c + sizeof_header_t \/
       c + sizeof_header_t + s_size hc <= x) /\
  (forall c hc i, c ∈ [4096; 4184] -> hdrs st_two !! c = Some hc ->
     0 <= i < s_size hc ->
     bytes st_three !! (c + sizeof_header_t + i)
       = bytes st_two !! (c + sizeof_header_t + i)).
Proof.
  apply (malloc_keeps_payloads 200 (4336 + sizeof_header_t) st_two st_three
           [4096; 4184]).
  - wf_concrete.
  - lia.
  - vm_compute. reflexivity.
  - vm_compute. reflexivity.
Defined.

(** X3. On a well-formed state, [free] of a registered block does not
    write into the payload of any registered block: every header it
    changes is the header of a registered block and lies outside the
    payload of every registered block, and the payload bytes of the
    registered blocks are as before the call (freed memory is not
    cleared). *)
Theorem free_keeps_payloads (st st' : state) (l : list Z) (a : Z) :
  wf st l -> a ∈ l -> free (a + sizeof_header_t) st = Done st' ->
  (forall x, hdrs st' !! x <> hdrs st !! x ->
     x ∈ l /\
     forall c hc, c ∈ l -> hdrs st !! c = Some hc ->
       x + sizeof_header_t <= c + sizeof_header_t \/
       c + sizeof_header_t + s_size hc <= x) /\
  (forall c hc i, c ∈ l -> hdrs st !! c = Some hc -> 0 <= i < s_size hc ->
     bytes st' !! (c + sizeof_header_t + i)
       = bytes st !! (c + sizeof_header_t + i)).
Proof.
  intros Hwf Ha Hf. split.
  - intros x Hx.
    assert (Hin : x ∈ l).
    { destruct (decide (x ∈ l)) as [Hin | Hnin]; [exact Hin |].
      exfalso. apply Hx. apply (free_untouched st st' l a Hwf Ha Hf x Hnin). }
    split; [exact Hin |].
    apply (header_outside_payloads st l x Hwf). left. exact Hin.
  - intros c hc i _ _ _.
    destruct (free_keeps_wf st l a Hwf Ha) as (st'' & l' & Hf' & _ & Hb).
    rewrite Hf' in Hf. injection Hf as <-. rewrite Hb. reflexivity.
Qed.

Lemma free_keeps_payloads_witness :
  (forall x, hdrs st_two_free !! x <> hdrs st_two !! x ->
     x ∈ [4096; 4184] /\
     forall c hc, c ∈ [4096; 4184] -> hdrs st_two !! c = Some hc ->
       x + sizeof_header_t <= c + sizeof_header_t \/
       c + sizeof_header_t + s_size hc <= x) /\
  (forall c hc i, c ∈ [4096; 4184] -> hdrs st_two !! c = Some hc ->
     0 <= i < s_size hc ->
     bytes st_two_free !! (c + sizeof_header_t + i)
       = bytes st_two !! (c + sizeof_header_t + i)).
Proof.
  apply (free_keeps_payloads st_two st_two_free [4096; 4184] 4096).
  - wf_concrete.
  - left.
  - vm_compute. reflexivity.
Defined.

(** ** [malloc] when no free block fits *)

Lemma append_block_keeps (s nb a : Z) (h : header) (st : state) :
  a <> brk st -> hdrs st !! a = Some h ->
  exists h', hdrs (append_block s nb st) !! a = Some h' /\
             s_size h' = s_size h /\ s_is_free h' = s_is_free h.
Proof.
  intros Hne Hh. unfold append_block. simpl_state.
  destruct (tail st =? NULL).
  - rewrite lookup_insert_ne by congruence. eauto.
  - destruct (<[brk st := Header s 0 NULL]> (hdrs st) !! tail st)
      as [t |] eqn:Ht.
    + destruct (decide (a = tail st)) as [-> | Hat].
      * rewrite lookup_insert_eq. rewrite lookup_insert_ne in Ht by congruence.
        rewrite Hh in Ht. injection Ht as <-. eauto.
      * rewrite !lookup_insert_ne by congruence. eauto.
    + rewrite lookup_insert_ne by congruence. eauto.
Qed.

Lemma no_fit_not_hit (s : Z) (st : state) (l l1 l2 : list Z) (b : Z)
      (hb : header) :
  Forall (fun x => forall hx, hdrs st !! x = Some hx ->
                              ~ (s_is_free hx = 1 /\ s <= s_size hx)) l ->
  l = l1 ++ b :: l2 -> hdrs st !! b = Some hb -> fits s hb = true -> False.
Proof.
  intros Hall -> Hb Hfit. rewrite Forall_forall in Hall.
  apply (Hall b ltac:(rewrite elem_of_app; right; left) hb Hb).
  apply fits_true. exact Hfit.
Qed.

(** X4. On a well-formed state where no registered block is free and
    large enough, a request of [s] bytes (total size below [2^63]) that
    the environment can serve is placed at the old break: [malloc]
    returns the old break plus the header size, the new header holds
    [size = s], [is_free = 0] and [next = NULL], it comes last in the
    registry and is the tail, the break rises by exactly
    [sizeof(header_t) + s], and the registered headers keep their [size]
    and [is_free]; no payload byte changes. *)
Theorem malloc_grows_region (s : Z) (st : state) (l : list Z) :
  wf st l -> 0 < s -> sizeof_header_t + s < 2 ^ 63 ->
  Forall (fun x => forall hx, hdrs st !! x = Some hx ->
                              ~ (s_is_free hx = 1 /\ s <= s_size hx)) l ->
  brk st + (sizeof_header_t + s) <= brk_max st ->
  exists st',
    malloc s st = Done (brk st + sizeof_header_t, st') /\
    wf st' (l ++ [brk st]) /\
    hdrs st' !! brk st = Some (Header s 0 NULL) /\
    tail st' = brk st /\
    brk st' = brk st + (sizeof_header_t + s) /\
    bytes st' = bytes st /\
    (forall x h, x ∈ l -> hdrs st !! x = Some h ->
       exists h', hdrs st' !! x = Some h' /\
                  s_size h' = s_size h /\ s_is_free h' = s_is_free h).
Proof.
  intros Hwf Hs Hsmall Hnone Hroom.
  destruct (wf_brk_fresh _ _ Hwf) as (Hfresh & _).
  destruct (malloc_cases s st l Hwf Hs Hsmall)
    as [(l1 & b & l2 & hb & El & _ & Hb & Hfit & _)
       | [(_ & Hfull & _) | (_ & _ & Hm)]].
  - exfalso. eapply no_fit_not_hit; eassumption.
  - lia.
  - eexists. split; [exact Hm |].
    split; [apply wf_append_block; [exact Hwf | lia | exact Hroom] |].
    split; [apply append_block_new; intros Hn; apply (wf_tail _ _ Hwf Hn) |].
    repeat (split; [reflexivity |]).
    intros x h Hx Hh. apply append_block_keeps; [| exact Hh].
    intros ->. contradiction.
Qed.

Lemma malloc_grows_region_witness :
  exists st',
    malloc 200 st_two = Done (brk st_two + sizeof_header_t, st') /\
    wf st' ([4096; 4184] ++ [brk st_two]) /\
    hdrs st' !! brk st_two = Some (Header 200 0 NULL) /\
    tail st' = brk st_two /\
    brk st' = brk st_two + (sizeof_header_t + 200) /\
    bytes st' = bytes st_two /\
    (forall x h, x ∈ [4096; 4184] -> hdrs st_two !! x = Some h ->
       exists h', hdrs st' !! x = Some h' /\
                  s_size h' = s_size h /\ s_is_free h' = s_is_free h).
Proof.
  apply (malloc_grows_region 200 st_two [4096; 4184]).
  - wf_concrete.
  - lia.
  - vm_compute. reflexivity.
  - apply List.Forall_cons; [| apply List.Forall_cons; [| apply List.Forall_nil]];
      intros hx Hx; vm_compute in Hx; injection Hx as <-; cbn; lia.
  - vm_compute. discriminate.
Defined.

(** X5. On a well-formed state where no registered block is free and
    large enough, a request that would push the break past the bound of
    the environment fails: [malloc] returns [NULL] and the state is the
    one it was given. *)
Theorem malloc_out_of_memory (s : Z) (st : state) (l : list Z) :
  wf st l -> 0 < s -> sizeof_header_t + s < 2 ^ 63 ->
  Forall (fun x => forall hx, hdrs st !! x = Some hx ->
                              ~ (s_is_free hx = 1 /\ s <= s_size hx)) l ->
  brk_max st < brk st + (sizeof_header_t + s) ->
  malloc s st = Done (NULL, st).
Proof.
  intros Hwf Hs Hsmall Hnone Hfull.
  destruct (malloc_cases s st l Hwf Hs Hsmall)
    as [(l1 & b & l2 & hb & El & _ & Hb & Hfit & _)
       | [(_ & _ & Hm) | (_ & Hroom & _)]].
  - exfalso. eapply no_fit_not_hit; eassumption.
  - exact Hm.
  - lia.
Qed.

Lemma malloc_out_of_memory_witness :
  malloc 200 st_two_tight = Done (NULL, st_two_tight).
Proof.
  apply (malloc_out_of_memory 200 st_two_tight [4096; 4184]).
  - wf_concrete.
  - lia.
  - vm_compute. reflexivity.
  - apply List.Forall_cons; [| apply List.Forall_cons; [| apply List.Forall_nil]];
      intros hx Hx; vm_compute in Hx; injection Hx as <-; cbn; lia.
  - vm_compute. reflexivity.
Defined.

(** ** The block [malloc] hands out *)

Lemma malloc_result (s p : Z) (st st' : state) (l : list Z) :
  wf st l -> 0 < s -> sizeof_header_t + s < 2 ^ 63 ->
  malloc s st = Done (p, st') -> p <> NULL ->
  exists a h l',
    wf st' l' /\
    (l' = l \/ (l' = l ++ [a] /\ (a ∉ l) /\ a = brk st)) /\ a ∈ l' /\
    p = a + sizeof_header_t /\
    hdrs st' !! a = Some h /\ s_is_free h = 0 /\ s <= s_size h /\
    bytes st' = bytes st /\
    (forall x hx, x ∈ l -> x <> a -> hdrs st !! x = Some hx ->
       exists hx', hdrs st' !! x = Some hx' /\
                   s_size hx' = s_size hx /\ s_is_free hx' = s_is_free hx) /\
    (forall hx, a ∈ l -> hdrs st !! a = Some hx -> s_size hx = s_size h).
Proof.
  intros Hwf Hs Hsmall Hm Hp.
  destruct (wf_brk_fresh _ _ Hwf) as (Hfresh & _).
  destruct (malloc_cases s st l Hwf Hs Hsmall)
    as [(l1 & b & l2 & hb & El & _ & Hb & Hfit & Hm')
       | [(_ & _ & Hm') | (_ & Hroom & Hm')]];
    rewrite Hm' in Hm; injection Hm as <- <-.
  - apply fits_true in Hfit as [_ Hfit].
    exists b, (Header (s_size hb) 0 (s_next hb)), l.
    split; [eapply wf_store_flags; [exact Hwf | exact Hb | reflexivity..] |].
    split; [left; reflexivity |].
    split; [rewrite El, elem_of_app; right; left |].
    split; [reflexivity |].
    split; [simpl_state; apply lookup_insert_eq |].
    split; [reflexivity |]. split; [exact Hfit |]. split; [reflexivity |].
    split.
    + intros x hx _ Hne Hx. simpl_state.
      rewrite lookup_insert_ne by congruence. eauto.
    + intros hx _ Hx. rewrite Hb in Hx. injection Hx as <-. reflexivity.
  - contradiction.
  - exists (brk st), (Header s 0 NULL), (l ++ [brk st]).
    split; [apply wf_append_block; [exact Hwf | lia | exact Hroom] |].
    split; [right; split; [reflexivity | split; [exact Hfresh | reflexivity]] |].
    split; [rewrite elem_of_app; right; left |].
    split; [reflexivity |].
    split; [apply append_block_new; intros Hn; apply (wf_tail _ _ Hwf Hn) |].
    split; [reflexivity |]. split; [cbn; lia |]. split; [reflexivity |].
    split.
    + intros x hx Hx Hne Hhx. apply append_block_keeps; assumption.
    + intros hx Hin. contradiction.
Qed.

(** X6. On a well-formed state, when [malloc(s)] (total size below
    [2^63]) returns a non-null address, that address is the payload of a
    registered block that is marked in use and whose payload size is at
    least [s]; the payload lies inside the region, below the break; every
    other registered block keeps its [size] and [is_free]; and the state
    after the call is well formed. *)
Theorem malloc_returns_usable_block (s p : Z) (st st' : state)
        (l : list Z) :
  wf st l -> 0 < s -> sizeof_header_t + s < 2 ^ 63 ->
  malloc s st = Done (p, st') -> p <> NULL ->
  exists a h l',
    wf st' l' /\ a ∈ l' /\ p = a + sizeof_header_t /\
    hdrs st' !! a = Some h /\ s_is_free h = 0 /\ s <= s_size h /\
    brk_min st' + sizeof_header_t <= p /\ p + s_size h <= brk st' /\
    (forall x hx, x ∈ l -> x <> a -> hdrs st !! x = Some hx ->
       exists hx', hdrs st' !! x = Some hx' /\
                   s_size hx' = s_size hx /\ s_is_free hx' = s_is_free hx).
Proof.
  intros Hwf Hs Hsmall Hm Hp.
  destruct (malloc_result s p st st' l Hwf Hs Hsmall Hm Hp)
    as (a & h & l' & Hwf' & _ & Ha & -> & Hh & Hfree & Hsz & _ & Hothers & _).
  destruct (wf_block _ _ _ Hwf' Ha) as (h' & Hh' & Hlo & _ & Hhi).
  rewrite Hh in Hh'. injection Hh' as <-.
  exists a, h, l'. split; [exact Hwf' |]. split; [exact Ha |].
  split; [reflexivity |]. repeat (split; [assumption |]).
  split; [lia |]. split; [lia | exact Hothers].
Qed.

Lemma malloc_returns_usable_block_witness :
  exists a h l',
    wf st_two l' /\ a ∈ l' /\ 4120 = a + sizeof_header_t /\
    hdrs st_two !! a = Some h /\ s_is_free h = 0 /\ 32 <= s_size h /\
    brk_min st_two + sizeof_header_t <= 4120 /\
    4120 + s_size h <= brk st_two /\
    (forall x hx, x ∈ [4096; 4184] -> x <> a ->
       hdrs st_two_free !! x = Some hx ->
       exists hx', hdrs st_two !! x = Some hx' /\
                   s_size hx' = s_size hx /\ s_is_free hx' = s_is_free hx).
Proof.
  apply (malloc_returns_usable_block 32 4120 st_two_free st_two
           [4096; 4184]).
  - wf_concrete.
  - lia.
  - vm_compute. reflexivity.
  - vm_compute. reflexivity.
  - vm_compute. discriminate.
Defined.

(** ** Zero-filled allocation *)

Lemma memset_loop_frame (n : nat) (dst c x : Z) (m : gmap Z Z) :
  0 <= dst -> dst + Z.of_nat n < modulus ->
  x < dst \/ dst + Z.of_nat n <= x ->
  memset_loop n dst c m !! x = m !! x.
Proof.
  revert dst m. induction n as [| n IH]; intros dst m Hd Hn Hx;
    [reflexivity |].
  cbn [memset_loop]. rewrite (mod_small_word (dst + 1)) by lia.
  rewrite IH by lia. apply lookup_insert_ne. lia.
Qed.

Lemma memset_loop_sets (n : nat) (dst c i : Z) (m : gmap Z Z) :
  0 <= dst -> dst + Z.of_nat n < modulus -> 0 <= i < Z.of_nat n ->
  memset_loop n dst c m !! (dst + i) = Some c.
Proof.
  revert dst i m. induction n as [| n IH]; intros dst i m Hd Hn Hi; [lia |].
  cbn [memset_loop]. rewrite (mod_small_word (dst + 1)) by lia.
  destruct (Z.eq_dec i 0) as [-> | Hi0].
  - rewrite Z.add_0_r, memset_loop_frame by lia. apply lookup_insert_eq.
  - replace (dst + i) with (dst + 1 + (i - 1)) by lia. apply IH; lia.
Qed.

(** X7. On a well-formed state, when [calloc(num, nsize)] with nonzero
    arguments (total size below [2^63]) returns a non-null address [p],
    the [num * nsize] bytes from [p] on are all zero, [p] is the payload
    of a registered block in use whose payload size is at least
    [num * nsize], the payload bytes of every other registered block are
    as before the call, and every header the call changes lies outside
    the payload of every registered block. *)
Theorem calloc_zero_fills (num nsize p : Z) (st st' : state) (l : list Z) :
  wf st l -> 0 < num -> 0 < nsize ->
  sizeof_header_t + num * nsize < 2 ^ 63 ->
  calloc num nsize st = Done (p, st') -> p <> NULL ->
  (forall i, 0 <= i < num * nsize -> bytes st' !! (p + i) = Some 0) /\
  (forall c hc i, c ∈ l -> c + sizeof_header_t <> p ->
     hdrs st !! c = Some hc -> 0 <= i < s_size hc ->
     bytes st' !! (c + sizeof_header_t + i)
       = bytes st !! (c + sizeof_header_t + i)) /\
  (forall x, hdrs st' !! x <> hdrs st !! x ->
     forall c hc, c ∈ l -> hdrs st !! c = Some hc ->
       x + sizeof_header_t <= c + sizeof_header_t \/
       c + sizeof_header_t + s_size hc <= x) /\
  exists a h l',
    wf st' l' /\ a ∈ l' /\ p = a + sizeof_header_t /\
    hdrs st' !! a = Some h /\ s_is_free h = 0 /\ num * nsize <= s_size h.
Proof.
  intros Hwf Hnum Hns Hsmall Hc Hp.
  assert (Hpos : 0 < num * nsize) by nia.
  unfold calloc in Hc.
  destruct (Z.eqb_spec num 0) as [He | _]; [lia |].
  destruct (Z.eqb_spec nsize 0) as [He | _]; [lia |]. cbn [orb] in Hc.
  rewrite (mod_small_word (num * nsize)) in Hc by word_arith.
  rewrite (Z.mul_comm num nsize), Z.div_mul, Z.eqb_refl in Hc by lia.
  rewrite (Z.mul_comm nsize num) in Hc. cbn [negb] in Hc.
  destruct (malloc_keeps_wf (num * nsize) st l Hwf Hpos Hsmall)
    as (p1 & st1 & l1 & Hm & _).
  rewrite Hm in Hc. simpl_state.
  destruct (Z.eqb_spec p1 NULL) as [-> | Hp1];
    [injection Hc as <- _; contradiction |].
  injection Hc as <- <-.
  destruct (malloc_result _ _ _ _ _ Hwf Hpos Hsmall Hm Hp1)
    as (a & h & l' & Hwf' & Hl' & Ha & Ep & Hh & Hfree & Hsz & Hb & Hold & _).
  destruct (wf_block _ _ _ Hwf' Ha) as (h' & Hh' & Hlo & _ & Hhi).
  rewrite Hh in Hh'. injection Hh' as <-.
  pose proof Hwf' as [Hmin' Hbrk' Hmax' _ Hlay'].
  split; [| split; [| split]].
  - intros i Hi. unfold memset. simpl_state. subst p1.
    apply memset_loop_sets; rewrite ?Z2Nat.id by lia; word_arith.
  - intros c hc i Hcl Hcp Hhc Hi. unfold memset. simpl_state.
    rewrite <- Hb. subst p1.
    assert (Hca : c <> a) by congruence.
    destruct (Hold c hc Hcl Hca Hhc) as (hc1 & Hhc1 & Hsz1 & _).
    assert (Hcl' : c ∈ l').
    { destruct Hl' as [-> | [-> _]]; [exact Hcl |].
      rewrite elem_of_app. left. exact Hcl. }
    destruct (layout_disjoint (hdrs st1) _ _ c a hc1 h l' Hlay' Hcl' Ha Hca
                Hhc1 Hh) as [Hd | Hd];
      apply memset_loop_frame; rewrite ?Z2Nat.id by lia; word_arith.
  - intros x Hx. apply (header_outside_payloads st l x Hwf).
    destruct (decide (x ∈ l)) as [Hin | Hnin]; [left; exact Hin |].
    destruct (Z.eq_dec x (brk st)) as [He | Hne]; [right; exact He |].
    exfalso. apply Hx. unfold memset. simpl_state.
    apply (malloc_untouched _ _ _ _ _ Hwf Hpos Hsmall Hm x Hnin Hne).
  - exists a, h, l'. split; [apply wf_set_bytes; exact Hwf' |].
    repeat (split; [assumption || reflexivity |]). exact Hsz.
Qed.

Lemma calloc_zero_fills_witness :
  (forall i, 0 <= i < 8 * 4 -> bytes (memset 4120 0 32 st_two) !! (4120 + i)
                               = Some 0) /\
  (forall c hc i, c ∈ [4096; 4184] -> c + sizeof_header_t <> 4120 ->
     hdrs st_two_free !! c = Some hc -> 0 <= i < s_size hc ->
     bytes (memset 4120 0 32 st_two) !! (c + sizeof_header_t + i)
       = bytes st_two_free !! (c + sizeof_header_t + i)) /\
  (forall x, hdrs (memset 4120 0 32 st_two) !! x <> hdrs st_two_free !! x ->
     forall c hc, c ∈ [4096; 4184] -> hdrs st_two_free !! c = Some hc ->
       x + sizeof_header_t <= c + sizeof_header_t \/
       c + sizeof_header_t + s_size hc <= x) /\
  exists a h l',
    wf (memset 4120 0 32 st_two) l' /\ a ∈ l' /\
    4120 = a + sizeof_header_t /\
    hdrs (memset 4120 0 32 st_two) !! a = Some h /\
    s_is_free h = 0 /\ 8 * 4 <= s_size h.
Proof.
  apply (calloc_zero_fills 8 4 4120 st_two_free (memset 4120 0 32 st_two)
           [4096; 4184]).
  - wf_concrete.
  - lia.
  - lia.
  - vm_compute. reflexivity.
  - vm_compute. reflexivity.
  - vm_compute. discriminate.
Defined.

(** ** Resize within the capacity of the block *)

(** X8. For a registered block of a well-formed state and a nonzero
    request not larger than the payload size recorded in its header,
    [realloc] returns the address it was given and the state it was
    given: nothing is shrunk, moved or released. *)
Theorem realloc_within_capacity (st : state) (l : list Z) (a s : Z)
        (h : header) :
  wf st l -> a ∈ l -> hdrs st !! a = Some h ->
  0 < s <= s_size h ->
  realloc (a + sizeof_header_t) s st = Done (a + sizeof_header_t, st).
Proof.
  intros Hwf Ha Hh Hs.
  destruct (wf_block _ _ _ Hwf Ha) as (h' & Hh' & Hlo & Hsz & Hhi).
  pose proof Hwf as [Hmin Hbrk Hmax _ _].
  unfold realloc.
  destruct (Z.eqb_spec (a + sizeof_header_t) NULL) as [He | _];
    [word_arith |].
  destruct (Z.eqb_spec s 0) as [He | _]; [lia |]. cbn [orb].
  replace ((a + sizeof_header_t - sizeof_header_t) mod modulus) with a
    by word_arith.
  rewrite (load_Some a h) by exact Hh. simpl_state.
  destruct (Z.leb_spec s (s_size h)) as [_ | Hlt]; [reflexivity | lia].
Qed.

Lemma realloc_within_capacity_witness :
  realloc (4096 + sizeof_header_t) 10 st_two
    = Done (4096 + sizeof_header_t, st_two).
Proof.
  apply (realloc_within_capacity st_two [4096; 4184] 4096 10
           (Header 64 0 4184)).
  - wf_concrete.
  - left.
  - reflexivity.
  - cbn [s_size]. lia.
Defined.

(** ** What [free] does to the registry *)

(** X9. When the only registered block ends at the break, [free] empties
    the registry and gives the whole region back: [head] and [tail]
    become [NULL] and the break is the address of the header of the
    block; header memory and payload bytes are not written. *)
Theorem free_last_block_empties (st : state) (a : Z) (h : header) :
  wf st [a] -> hdrs st !! a = Some h ->
  a + sizeof_header_t + s_size h = brk st ->
  free (a + sizeof_header_t) st =
    Done (State NULL NULL (hdrs st) (bytes st) a (brk_min st) (brk_max st)).
Proof.
  intros Hwf Hh Hend.
  destruct (free_cases st [a] a h Hwf ltac:(left) Hh)
    as [(Hne & _) | [(_ & _ & Hf) | (_ & l0 & p & hp & El & _)]].
  - contradiction.
  - exact Hf.
  - exfalso. apply (f_equal length) in El. rewrite length_app in El.
    cbn in El. lia.
Qed.

Lemma free_last_block_empties_witness :
  free (4096 + sizeof_header_t) st_one =
    Done (State NULL NULL (hdrs st_one) (bytes st_one) 4096
            (brk_min st_one) (brk_max st_one)).
Proof.
  apply (free_last_block_empties st_one 4096 (Header 64 0 NULL)).
  - wf_concrete.
  - reflexivity.
  - reflexivity.
Defined.

(** X10. [free] of a registered block of a well-formed state returns and
    leaves a well-formed state in which the block is released in one of
    two ways: either the registry and the break are unchanged and the
    block is marked free, or the block was the last of the registry, is
    removed from it, and the break is lowered to the address of its
    header.  In both cases every other registered block keeps its [size]
    and [is_free]. *)
Theorem free_releases_block (st : state) (l : list Z) (a : Z) :
  wf st l -> a ∈ l ->
  exists st' l',
    free (a + sizeof_header_t) st = Done st' /\ wf st' l' /\
    ((l' = l /\ brk st' = brk st /\
      exists h', hdrs st' !! a = Some h' /\ s_is_free h' = 1) \/
     (l = l' ++ [a] /\ brk st' = a)) /\
    (forall x hx, x ∈ l -> x <> a -> hdrs st !! x = Some hx ->
       exists hx', hdrs st' !! x = Some hx' /\
                   s_size hx' = s_size hx /\ s_is_free hx' = s_is_free hx).
Proof.
  intros Hwf Ha.
  destruct (wf_block _ _ _ Hwf Ha) as (h & Hh & _).
  destruct (free_cases st l a h Hwf Ha Hh)
    as [(_ & Hf) | [(_ & -> & Hf) | (_ & l0 & p & hp & -> & Hp & Hf)]].
  - eexists _, l. split; [exact Hf |].
    split; [eapply wf_store_flags; [exact Hwf | exact Hh | reflexivity..] |].
    split.
    + left. split; [reflexivity |]. split; [reflexivity |].
      eexists. split; [simpl_state; apply lookup_insert_eq | reflexivity].
    + intros x hx _ Hne Hx. simpl_state.
      rewrite lookup_insert_ne by congruence. eauto.
  - eexists _, []. split; [exact Hf |].
    split; [apply wf_drop_only; exact Hwf |].
    split; [right; split; reflexivity |].
    intros x hx Hx Hne. apply list_elem_of_singleton in Hx. contradiction.
  - eexists _, (l0 ++ [p]). split; [exact Hf |].
    split; [apply wf_drop_last; assumption |].
    split; [right; split; [rewrite <- app_assoc |]; reflexivity |].
    intros x hx _ _ Hx. simpl_state.
    destruct (decide (x = p)) as [-> | Hne].
    + rewrite lookup_insert_eq. rewrite Hp in Hx. injection Hx as <-. eauto.
    + rewrite lookup_insert_ne by congruence. eauto.
Qed.

Lemma free_releases_block_witness :
  exists st' l',
    free (4184 + sizeof_header_t) st_two = Done st' /\ wf st' l' /\
    ((l' = [4096; 4184] /\ brk st' = brk st_two /\
      exists h', hdrs st' !! 4184 = Some h' /\ s_is_free h' = 1) \/
     ([4096; 4184] = l' ++ [4184] /\ brk st' = 4184)) /\
    (forall x hx, x ∈ [4096; 4184] -> x <> 4184 ->
       hdrs st_two !! x = Some hx ->
       exists hx', hdrs st' !! x = Some hx' /\
                   s_size hx' = s_size hx /\ s_is_free hx' = s_is_free hx).
Proof.
  apply (free_releases_block st_two [4096; 4184] 4184).
  - wf_concrete.
  - right. left.
Defined.

(** ** Round trips *)

Lemma first_fit_hit (m : gmap Z header) (size a b : Z) (h : header)
      (l1 l2 : list Z) :
  chain m a (l1 ++ b :: l2) ->
  Forall (fun x => forall hx, m !! x = Some hx -> fits size hx = false) l1 ->
  m !! b = Some h -> fits size h = true ->
  first_fit m size (l1 ++ b :: l2) = b.
Proof.
  revert a. induction l1 as [| x l1 IH]; intros a Hc Hall Hb Hfit; cbn.
  - rewrite Hb, Hfit. reflexivity.
  - apply chain_cons_inv in Hc as (-> & _ & hx & Hx & Hc').
    apply Forall_cons in Hall as [Hx' Hall].
    rewrite Hx, (Hx' _ Hx). eapply IH; eassumption.
Qed.

Lemma store_store_id (st : state) (a : Z) (h h1 : header) :
  hdrs st !! a = Some h -> store a h (store a h1 st) = st.
Proof.
  intros Hh. destruct st as [hd tl hs bs b lo hi].
  unfold store, set_hdrs. cbn [head tail hdrs bytes brk brk_min brk_max] in *.
  f_equal. rewrite insert_insert_eq. apply insert_id. exact Hh.
Qed.

(** X11. Release, then allocate again: for an in-use registered block
    that does not end at the break, and a request [s] not larger than its
    payload size that no earlier block of the registry can serve, [free]
    of the block followed by [malloc(s)] returns the same payload address
    and restores the state exactly as it was before the [free]. *)
Theorem free_malloc_reuses_same_block (st : state) (l1 l2 : list Z)
        (a s : Z) (h : header) :
  wf st (l1 ++ a :: l2) -> hdrs st !! a = Some h -> s_is_free h = 0 ->
  a + sizeof_header_t + s_size h <> brk st ->
  0 < s <= s_size h ->
  Forall (fun x => forall hx, hdrs st !! x = Some hx ->
                              ~ (s_is_free hx = 1 /\ s <= s_size hx)) l1 ->
  exists st1,
    free (a + sizeof_header_t) st = Done st1 /\
    malloc s st1 = Done (a + sizeof_header_t, st).
Proof.
  intros Hwf Hh Hfree Hmid Hs Hnone.
  assert (Ha : a ∈ l1 ++ a :: l2) by (rewrite elem_of_app; right; left).
  destruct (wf_block _ _ _ Hwf Ha) as (h' & Hh' & Hlo & Hsz & Hhi).
  pose proof Hwf as [Hmin Hbrk Hmax [Hc Ht] Hl].
  destruct (free_cases st _ a h Hwf Ha Hh)
    as [(_ & Hf) | [(Hend & _) | (Hend & _)]]; try contradiction.
  exists (store a (Header (s_size h) 1 (s_next h)) st).
  split; [exact Hf |].
  assert (Hnd : NoDup (l1 ++ a :: l2)) by (eapply chain_NoDup, Hc).
  apply NoDup_app in Hnd as (_ & Hd & _).
  assert (Hc1 : chain (hdrs (store a (Header (s_size h) 1 (s_next h)) st))
                  (head (store a (Header (s_size h) 1 (s_next h)) st))
                  (l1 ++ a :: l2))
    by (simpl_state; eapply chain_insert_next;
        [exact Hh | reflexivity | exact Hc]).
  assert (Han : a <> NULL) by (eapply chain_lookup; [exact Hc | exact Ha]).
  rewrite (malloc_hit s a (Header (s_size h) 1 (s_next h)) _ (l1 ++ a :: l2));
    try assumption; try lia.
  - replace ((a + sizeof_header_t) mod modulus) with (a + sizeof_header_t)
      by word_arith.
    do 2 f_equal. cbn [s_size s_next].
    apply store_store_id. destruct h as [sz fr nx]. cbn in *. subst fr.
    exact Hh.
  - eapply first_fit_hit; [exact Hc1 | | simpl_state; apply lookup_insert_eq |].
    + rewrite Forall_forall in Hnone |- *. intros x Hx hx Hhx.
      apply fits_false. apply (Hnone x Hx).
      simpl_state. rewrite lookup_insert_ne in Hhx; [exact Hhx |].
      intros <-. apply (Hd a Hx). left.
    + apply fits_true. cbn. lia.
  - simpl_state. apply lookup_insert_eq.
Qed.

Lemma free_malloc_reuses_same_block_witness :
  exists st1,
    free (4096 + sizeof_header_t) st_two = Done st1 /\
    malloc 32 st1 = Done (4096 + sizeof_header_t, st_two).
Proof.
  apply (free_malloc_reuses_same_block st_two [] [4184] 4096 32
           (Header 64 0 4184)).
  - wf_concrete.
  - reflexivity.
  - reflexivity.
  - vm_compute. discriminate.
  - cbn [s_size]. lia.
  - apply List.Forall_nil.
Defined.

(** X12. Allocate, then release: when no registered block can serve the
    request and the environment can, [malloc(s)] followed by [free] of
    the address it returned brings back [head], [tail], the break, every
    payload byte and every header that was in memory; the only trace is
    the header written at the old break, which is outside the region
    again. *)
Theorem malloc_free_undoes_growth (s : Z) (st : state) (l : list Z) :
  wf st l -> 0 < s -> sizeof_header_t + s < 2 ^ 63 ->
  Forall (fun x => forall hx, hdrs st !! x = Some hx ->
                              ~ (s_is_free hx = 1 /\ s <= s_size hx)) l ->
  brk st + (sizeof_header_t + s) <= brk_max st ->
  exists st1,
    malloc s st = Done (brk st + sizeof_header_t, st1) /\
    free (brk st + sizeof_header_t) st1 =
      Done (store (brk st) (Header s 0 NULL) st).
Proof.
  intros Hwf Hs Hsmall Hnone Hroom.
  destruct (wf_brk_fresh _ _ Hwf) as (Hfresh & Hbn & _).
  pose proof Hwf as [Hmin Hbrk Hmax [Hc Ht] Hl].
  destruct (malloc_cases s st l Hwf Hs Hsmall)
    as [(l1 & b & l2 & hb & El & _ & Hb & Hfit & _)
       | [(_ & Hfull & _) | (_ & _ & Hm)]].
  - exfalso. eapply no_fit_not_hit; eassumption.
  - lia.
  - eexists. split; [exact Hm |].
    pose proof (wf_append_block s st l Hwf ltac:(lia) Hroom) as Hwf1.
    assert (Hnew : hdrs (append_block s (brk st + (sizeof_header_t + s)) st)
                     !! brk st = Some (Header s 0 NULL))
      by (apply append_block_new; intros Hn; apply (wf_tail _ _ Hwf Hn)).
    destruct (free_cases _ _ (brk st) _ Hwf1
                ltac:(rewrite elem_of_app; right; left) Hnew)
      as [(Hne & _) | [(_ & El & Hf) | (_ & l0 & p & hp & El & Hp & Hf)]].
    + exfalso. apply Hne. unfold append_block. simpl_state. lia.
    + (* the registry was empty *)
      destruct l as [| x l]; [| destruct l; discriminate].
      apply chain_nil_inv in Hc. cbn in Ht.
      rewrite Hf. f_equal.
      destruct st as [hd tl hs bs b lo hi]. simpl_state. subst hd tl.
      reflexivity.
    + (* the new block came after the old tail [p] *)
      replace (l0 ++ [p; brk st]) with ((l0 ++ [p]) ++ [brk st]) in El
        by (rewrite <- app_assoc; reflexivity).
      apply app_inj_tail in El as [-> _].
      rewrite last_snoc in Ht. cbn in Ht.
      assert (Hpin : p ∈ l0 ++ [p]) by (rewrite elem_of_app; right; left).
      destruct (chain_tail_next _ _ p _ Hc ltac:(apply last_snoc))
        as (t & Hpt & Hnext).
      assert (Hpb : p <> brk st) by (intros ->; contradiction).
      assert (Hpn : p <> NULL) by (eapply chain_lookup; eassumption).
      assert (Hhn : head st <> NULL).
      { intros He. destruct l0; cbn in Hc;
          apply chain_cons_inv in Hc as (Hh0 & Hn0 & _); congruence. }
      rewrite Hf. f_equal.
      revert Hp. unfold append_block.
      destruct st as [hd tl hs bs b lo hi]. simpl_state. subst tl.
      destruct (Z.eqb_spec p NULL) as [He | _]; [contradiction |].
      destruct (Z.eqb_spec hd NULL) as [He | _]; [contradiction |].
      rewrite lookup_insert_ne by congruence. rewrite Hpt.
      rewrite lookup_insert_eq. intros [= <-]. cbn [s_size s_is_free].
      unfold set_brk, set_tail, store, set_hdrs.
      cbn [head tail hdrs bytes brk brk_min brk_max]. f_equal.
      rewrite insert_insert_eq.
      destruct t as [sz fr nx]. cbn [s_size s_is_free s_next] in *.
      subst nx. apply insert_id.
      rewrite lookup_insert_ne by congruence. exact Hpt.
Qed.

Lemma malloc_free_undoes_growth_witness :
  exists st1,
    malloc 200 st_two = Done (brk st_two + sizeof_header_t, st1) /\
    free (brk st_two + sizeof_header_t) st1 =
      Done (store (brk st_two) (Header 200 0 NULL) st_two).
Proof.
  apply (malloc_free_undoes_growth 200 st_two [4096; 4184]).
  - wf_concrete.
  - lia.
  - vm_compute. reflexivity.
  - apply List.Forall_cons; [| apply List.Forall_cons; [| apply List.Forall_nil]];
      intros hx Hx; vm_compute in Hx; injection Hx as <-; cbn; lia.
  - vm_compute. discriminate.
Defined.

(** ** Resize to a larger size *)

Lemma realloc_grow_inv (st st' : state) (l : list Z) (a s r : Z)
      (h : header) :
  wf st l -> a ∈ l -> hdrs st !! a = Some h ->
  s_size h < s -> sizeof_header_t + s < 2 ^ 63 ->
  realloc (a + sizeof_header_t) s st = Done (r, st') -> r <> NULL ->
  exists st1,
    malloc s st = Done (r, st1) /\
    free (a + sizeof_header_t)
         (memcpy r (a + sizeof_header_t) (s_size h) st1) = Done st'.
Proof.
  intros Hwf Ha Hh Hlt Hsmall Hr Hrn.
  destruct (wf_block _ _ _ Hwf Ha) as (h' & Hh' & Hlo & Hsz & Hhi).
  rewrite Hh in Hh'. injection Hh' as <-.
  pose proof Hwf as [Hmin Hbrk Hmax _ _].
  unfold realloc in Hr.
  destruct (Z.eqb_spec (a + sizeof_header_t) NULL) as [He | _];
    [word_arith |].
  destruct (Z.eqb_spec s 0) as [He | _]; [lia |]. cbn [orb] in Hr.
  replace ((a + sizeof_header_t - sizeof_header_t) mod modulus) with a
    in Hr by word_arith.
  rewrite (load_Some a h) in Hr by exact Hh. simpl_state.
  destruct (Z.leb_spec s (s_size h)) as [Hle | _]; [lia |].
  destruct (malloc_keeps_wf s st l Hwf ltac:(lia) Hsmall)
    as (p & st1 & l1 & Hm & _ & _ & _ & Hold & _).
  rewrite Hm in Hr. simpl_state.
  destruct (Z.eqb_spec p NULL) as [-> | Hp];
    [injection Hr as <- _; contradiction |].
  cbn [negb] in Hr.
  destruct (Hold a h Ha Hh) as (h1 & Hh1 & Hsz1).
  rewrite (load_Some a h1) in Hr by exact Hh1. simpl_state.
  rewrite Hsz1 in Hr.
  destruct (free _ _) as [st3 | |] eqn:Hf; simpl_state; try discriminate.
  injection Hr as <- <-. exists st1. split; [exact Hm | exact Hf].
Qed.

(** X13. On a well-formed state, when [realloc] of a registered block to
    a larger size [s] (total size below [2^63]) returns a non-null
    address, the state after the call is well formed, the address is the
    payload of a registered block other than the original one, marked in
    use and with payload size at least [s], and the original block is
    released: it is either still registered and marked free, or no longer
    in the registry. *)
Theorem realloc_moves_block (st st' : state) (l : list Z) (a s r : Z)
        (h : header) :
  wf st l -> a ∈ l -> hdrs st !! a = Some h ->
  s_size h < s -> sizeof_header_t + s < 2 ^ 63 ->
  realloc (a + sizeof_header_t) s st = Done (r, st') -> r <> NULL ->
  exists b hb l',
    wf st' l' /\ r = b + sizeof_header_t /\ b <> a /\ b ∈ l' /\
    hdrs st' !! b = Some hb /\ s_is_free hb = 0 /\ s <= s_size hb /\
    ((a ∈ l' /\ exists ha, hdrs st' !! a = Some ha /\ s_is_free ha = 1) \/
     a ∉ l').
Proof.
  intros Hwf Ha Hh Hlt Hsmall Hr Hrn.
  destruct (wf_block _ _ _ Hwf Ha) as (h' & Hh' & _ & Hsz & _).
  rewrite Hh in Hh'. injection Hh' as <-.
  destruct (realloc_grow_inv _ _ _ _ _ _ _ Hwf Ha Hh Hlt Hsmall Hr Hrn)
    as (st1 & Hm & Hf).
  destruct (malloc_result s r st st1 l Hwf ltac:(lia) Hsmall Hm Hrn)
    as (b & hb & l1 & Hwf1 & Hl1 & Hb & -> & Hhb & Hfree & Hfit & _ & Hold
        & Hsame).
  assert (Hba : b <> a).
  { intros ->. specialize (Hsame h Ha Hh). lia. }
  assert (Ha1 : a ∈ l1).
  { destruct Hl1 as [-> | [-> _]]; [exact Ha |].
    rewrite elem_of_app. left. exact Ha. }
  assert (Hwf2 : wf (memcpy (b + sizeof_header_t) (a + sizeof_header_t)
                       (s_size h) st1) l1)
    by (apply wf_set_bytes; exact Hwf1).
  destruct (wf_block _ _ _ Hwf2 Ha1) as (h1 & Hh1 & _).
  destruct (free_cases _ l1 a h1 Hwf2 Ha1 Hh1)
    as [(_ & Hf') | [(_ & El & Hf') | (_ & l0 & p & hp & El & Hp & Hf')]];
    rewrite Hf' in Hf; injection Hf as <-.
  - exists b, hb, l1.
    split; [eapply wf_store_flags; [exact Hwf2 | exact Hh1 | reflexivity..] |].
    split; [reflexivity |]. split; [exact Hba |]. split; [exact Hb |].
    split; [unfold memcpy; simpl_state;
            rewrite lookup_insert_ne by congruence; exact Hhb |].
    split; [exact Hfree |]. split; [exact Hfit |].
    left. split; [exact Ha1 |]. eexists.
    split; [simpl_state; apply lookup_insert_eq | reflexivity].
  - exfalso. rewrite El in Hb. apply list_elem_of_singleton in Hb.
    contradiction.
  - assert (Hnd : NoDup l1).
    { destruct Hwf1 as [_ _ _ [Hc1 _] _]. eapply chain_NoDup, Hc1. }
    subst l1.
    replace (l0 ++ [p; a]) with ((l0 ++ [p]) ++ [a]) in Hb, Hnd
      by (rewrite <- app_assoc; reflexivity).
    apply NoDup_app in Hnd as (_ & Hd & _).
    apply elem_of_app in Hb as [Hb | Hb];
      [| apply list_elem_of_singleton in Hb; contradiction].
    assert (Hhb' : exists hb', hdrs (set_brk a
                      (set_tail p
                         (store p (Header (s_size hp) (s_is_free hp) NULL)
                            (memcpy (b + sizeof_header_t)
                               (a + sizeof_header_t) (s_size h) st1))))
                     !! b = Some hb' /\ s_is_free hb' = 0 /\
                     s <= s_size hb').
    { unfold memcpy in *. simpl_state.
      destruct (decide (b = p)) as [-> | Hne].
      - rewrite lookup_insert_eq.
        rewrite Hhb in Hp. injection Hp as <-. eauto.
      - rewrite lookup_insert_ne by congruence. eauto. }
    destruct Hhb' as (hb' & Hhb' & Hfree' & Hfit').
    exists b, hb', (l0 ++ [p]).
    split; [apply wf_drop_last; assumption |].
    split; [reflexivity |]. split; [exact Hba |]. split; [exact Hb |].
    split; [exact Hhb' |]. split; [exact Hfree' |]. split; [exact Hfit' |].
    right. intros Hin. apply (Hd a Hin). left.
Qed.

Lemma realloc_moves_block_witness :
  exists b hb l',
    wf (store 4096 (Header 64 1 4184) (memcpy 4360 4120 64 st_three)) l' /\
    4360 = b + sizeof_header_t /\ b <> 4096 /\ b ∈ l' /\
    hdrs (store 4096 (Header 64 1 4184) (memcpy 4360 4120 64 st_three)) !! b
      = Some hb /\
    s_is_free hb = 0 /\ 200 <= s_size hb /\
    ((4096 ∈ l' /\
      exists ha,
        hdrs (store 4096 (Header 64 1 4184) (memcpy 4360 4120 64 st_three))
          !! 4096 = Some ha /\ s_is_free ha = 1) \/
     4096 ∉ l').
Proof.
  apply (realloc_moves_block st_two
           (store 4096 (Header 64 1 4184) (memcpy 4360 4120 64 st_three))
           [4096; 4184] 4096 200 4360 (Header 64 0 4184)).
  - wf_concrete.
  - left.
  - reflexivity.
  - cbn [s_size]. lia.
  - vm_compute. reflexivity.
  - vm_compute. reflexivity.
  - vm_compute. discriminate.
Defined.

(** X14. Under the same conditions, the first [m] bytes of the block
    [realloc] returns are the [m] payload bytes of the original block
    ([m] its payload size), the payload bytes of every registered block
    other than the one returned, the original one included, are as
    before the call, and every header the call changes lies outside the
    payload of every registered block. *)
Theorem realloc_keeps_other_payloads (st st' : state) (l : list Z)
        (a s r : Z) (h : header) :
  wf st l -> a ∈ l -> hdrs st !! a = Some h ->
  s_size h < s -> sizeof_header_t + s < 2 ^ 63 ->
  realloc (a + sizeof_header_t) s st = Done (r, st') -> r <> NULL ->
  (forall i, 0 <= i < s_size h ->
     bytes st' !! (r + i) = bytes st !! (a + sizeof_header_t + i)) /\
  (forall c hc i, c ∈ l -> c + sizeof_header_t <> r ->
     hdrs st !! c = Some hc -> 0 <= i < s_size hc ->
     bytes st' !! (c + sizeof_header_t + i)
       = bytes st !! (c + sizeof_header_t + i)) /\
  (forall x, hdrs st' !! x <> hdrs st !! x ->
     forall c hc, c ∈ l -> hdrs st !! c = Some hc ->
       x + sizeof_header_t <= c + sizeof_header_t \/
       c + sizeof_header_t + s_size hc <= x).
Proof.
  intros Hwf Ha Hh Hlt Hsmall Hr Hrn.
  destruct (wf_block _ _ _ Hwf Ha) as (h' & Hh' & _ & Hsz & _).
  rewrite Hh in Hh'. injection Hh' as <-.
  destruct (realloc_grow_inv _ _ _ _ _ _ _ Hwf Ha Hh Hlt Hsmall Hr Hrn)
    as (st1 & Hm & Hf).
  destruct (malloc_result s r st st1 l Hwf ltac:(lia) Hsmall Hm Hrn)
    as (b & hb & l1 & Hwf1 & Hl1 & Hb & Er & Hhb & _ & Hfit & Hbytes & Hold
        & Hsame).
  destruct (wf_block _ _ _ Hwf1 Hb) as (hb' & Hhb' & Hblo & _ & Hbhi).
  rewrite Hhb in Hhb'. injection Hhb' as <-.
  assert (Hba : b <> a).
  { intros ->. specialize (Hsame h Ha Hh). lia. }
  assert (Hsub : forall c, c ∈ l -> c ∈ l1).
  { intros c Hc. destruct Hl1 as [-> | [-> _]]; [exact Hc |].
    rewrite elem_of_app. left. exact Hc. }
  pose proof (Hsub a Ha) as Ha1.
  destruct (wf_block _ _ _ Hwf1 Ha1) as (h1 & Hh1 & Halo & Hsz1 & Hahi).
  destruct (Hold a h Ha ltac:(congruence) Hh) as (h1' & Hh1' & Hsize1 & _).
  rewrite Hh1 in Hh1'. injection Hh1' as <-.
  pose proof Hwf1 as [Hmin1 Hbrk1 Hmax1 _ Hlay1].
  assert (Hwf2 : wf (memcpy r (a + sizeof_header_t) (s_size h) st1) l1)
    by (apply wf_set_bytes; exact Hwf1).
  destruct (free_keeps_wf _ l1 a Hwf2 Ha1) as (st'' & l2 & Hf' & _ & Hb'').
  rewrite Hf' in Hf. injection Hf as ->.
  split; [| split].
  - intros i Hi. rewrite Hb''. unfold memcpy. simpl_state.
    rewrite <- Hbytes. subst r.
    destruct (layout_disjoint (hdrs st1) _ _ a b h1 hb l1 Hlay1 Ha1 Hb
                ltac:(congruence) Hh1 Hhb) as [Hd | Hd];
      apply memcpy_loop_copies; rewrite ?Z2Nat.id by lia; word_arith.
  - intros c hc i Hcl Hcr Hhc Hi. rewrite Hb''. unfold memcpy. simpl_state.
    rewrite <- Hbytes. subst r.
    assert (Hcb : c <> b) by congruence.
    destruct (Hold c hc Hcl Hcb Hhc) as (hc1 & Hhc1 & Hsc1 & _).
    destruct (layout_disjoint (hdrs st1) _ _ c b hc1 hb l1 Hlay1
                (Hsub c Hcl) Hb Hcb Hhc1 Hhb) as [Hd | Hd];
      apply memcpy_loop_frame; rewrite ?Z2Nat.id by lia; word_arith.
  - intros x Hx. apply (header_outside_payloads st l x Hwf).
    destruct (decide (x ∈ l)) as [Hin | Hnin]; [left; exact Hin |].
    destruct (Z.eq_dec x (brk st)) as [He | Hne]; [right; exact He |].
    exfalso. apply Hx.
    rewrite (free_untouched _ _ l1 a Hwf2 Ha1 Hf' x).
    + unfold memcpy. simpl_state.
      assert (Hs : 0 < s) by lia.
      apply (malloc_untouched s r st st1 l Hwf Hs Hsmall Hm x Hnin Hne).
    + destruct Hl1 as [-> | (-> & _ & Eb)]; [exact Hnin |].
      rewrite elem_of_app. intros [Hin | Hin]; [contradiction |].
      apply list_elem_of_singleton in Hin. congruence.
Qed.

Lemma realloc_keeps_other_payloads_witness :
  (forall i, 0 <= i < 64 ->
     bytes (store 4096 (Header 64 1 4184) (memcpy 4360 4120 64 st_three))
       !! (4360 + i) = bytes st_two !! (4096 + sizeof_header_t + i)) /\
  (forall c hc i, c ∈ [4096; 4184] -> c + sizeof_header_t <> 4360 ->
     hdrs st_two !! c = Some hc -> 0 <= i < s_size hc ->
     bytes (store 4096 (Header 64 1 4184) (memcpy 4360 4120 64 st_three))
       !! (c + sizeof_header_t + i)
       = bytes st_two !! (c + sizeof_header_t + i)) /\
  (forall x,
     hdrs (store 4096 (Header 64 1 4184) (memcpy 4360 4120 64 st_three))
       !! x <> hdrs st_two !! x ->
     forall c hc, c ∈ [4096; 4184] -> hdrs st_two !! c = Some hc ->
       x + sizeof_header_t <= c + sizeof_header_t \/
       c + sizeof_header_t + s_size hc <= x).
Proof.
  apply (realloc_keeps_other_payloads st_two
           (store 4096 (Header 64 1 4184) (memcpy 4360 4120 64 st_three))
           [4096; 4184] 4096 200 4360 (Header 64 0 4184)).
  - wf_concrete.
  - left.
  - reflexivity.
  - cbn [s_size]. lia.
  - vm_compute. reflexivity.
  - vm_compute. reflexivity.
  - vm_compute. discriminate.
Defined.

(** ** Every state a client can reach *)

Lemma registered_in (st : state) (l : list Z) (p : Z) :
  wf st l -> registered st p -> exists a, a ∈ l /\ p = a + sizeof_header_t.
Proof.
  intros [_ _ _ [Hc _] _] (l0 & a & Hc0 & Ha & ->).
  rewrite (chain_functional _ _ _ _ Hc Hc0). eauto.
Qed.

Lemma reachable_wf (st : state) : reachable st -> exists l, wf st l.
Proof.
  induction 1 as [b lo hi Hlo Hb Hhi
                 | st st' s p _ [l Hwf] Hs Hsmall Hm
                 | st st' p _ [l Hwf] Hp Hf
                 | st st' num nsize p _ [l Hwf] Hnum Hns Hsmall Hc
                 | st st' p s r _ [l Hwf] Hp Hs Hsmall Hr
                 | st a v _ [l Hwf]].
  - exists []. apply wf_init; assumption.
  - destruct (Z.eq_dec s 0) as [-> | Hs0].
    + injection Hm as _ <-. eauto.
    + destruct (malloc_keeps_wf s st l Hwf ltac:(lia) Hsmall)
        as (p' & st'' & l' & Hm' & Hwf' & _).
      rewrite Hm' in Hm. injection Hm as _ <-. eauto.
  - destruct Hp as [-> | Hp].
    + injection Hf as <-. eauto.
    + destruct (registered_in _ _ _ Hwf Hp) as (a & Ha & ->).
      destruct (free_keeps_wf st l a Hwf Ha) as (st'' & l' & Hf' & Hwf' & _).
      rewrite Hf' in Hf. injection Hf as <-. eauto.
  - destruct (calloc_keeps_wf num nsize st l Hwf Hnum Hns Hsmall)
      as (p' & st'' & l' & Hc' & Hwf').
    rewrite Hc' in Hc. injection Hc as _ <-. eauto.
  - destruct Hp as [-> | Hp].
    + injection Hr as _ <-. eauto.
    + destruct (registered_in _ _ _ Hwf Hp) as (a & Ha & ->).
      destruct (realloc_keeps_wf s a st l Hwf Ha Hs Hsmall)
        as (p' & st'' & l' & Hr' & Hwf').
      rewrite Hr' in Hr. injection Hr as _ <-. eauto.
  - exists l. apply wf_set_bytes. exact Hwf.
Qed.

Lemma reachable_st_two_plain : reachable st_two_plain.
Proof.
  apply (reach_malloc st_one st_two_plain 128 4208);
    [| lia | vm_compute; reflexivity | vm_compute; reflexivity].
  apply (reach_malloc st_empty st_one 64 4120);
    [| lia | vm_compute; reflexivity | vm_compute; reflexivity].
  apply reach_init; lia.
Defined.

(** X15. In every state a client can reach the registry is consistent:
    [head] is empty exactly when [tail] is, the chain from [head] is
    finite, visits no block twice and ends at [tail], whose [next] is
    [NULL]; and the break is within the bounds of the environment. *)
Theorem reachable_registry_consistent (st : state) :
  reachable st ->
  registry_consistent st /\ brk_min st <= brk st <= brk_max st /\
  (head st <> NULL ->
   exists h, hdrs st !! tail st = Some h /\ s_next h = NULL).
Proof.
  intros Hr. destruct (reachable_wf st Hr) as (l & Hwf).
  pose proof (wf_registry_consistent st l Hwf) as Hcons.
  split; [exact Hcons |]. split; [apply Hwf |].
  apply registry_consistent_tail. exact Hcons.
Qed.

Lemma reachable_registry_consistent_witness :
  registry_consistent st_two_plain /\
  brk_min st_two_plain <= brk st_two_plain <= brk_max st_two_plain /\
  (head st_two_plain <> NULL ->
   exists h, hdrs st_two_plain !! tail st_two_plain = Some h /\
             s_next h = NULL).
Proof.
  apply (reachable_registry_consistent st_two_plain).
  exact reachable_st_two_plain.
Defined.

(** X16. In every state a client can reach, each block of the registry
    (header and payload) lies inside the region, between the lower bound
    of the break and the break, and two different blocks of the registry
    never overlap. *)
Theorem reachable_blocks_disjoint (st : state) (l : list Z) :
  reachable st -> chain (hdrs st) (head st) l ->
  (forall a ha, a ∈ l -> hdrs st !! a = Some ha ->
     brk_min st <= a /\ 0 <= s_size ha /\
     a + sizeof_header_t + s_size ha <= brk st) /\
  (forall a b ha hb, a ∈ l -> b ∈ l -> a <> b ->
     hdrs st !! a = Some ha -> hdrs st !! b = Some hb ->
     a + sizeof_header_t + s_size ha <= b \/
     b + sizeof_header_t + s_size hb <= a).
Proof.
  intros Hr Hc.
  destruct (reachable_wf st Hr) as (l' & Hwf).
  assert (l' = l) as -> by (eapply chain_functional; [apply Hwf | exact Hc]).
  split.
  - intros a ha Ha Hha.
    destruct (wf_block _ _ _ Hwf Ha) as (ha' & Hha' & Hlo & Hsz & Hhi).
    rewrite Hha in Hha'. injection Hha' as <-. auto.
  - intros a b ha hb Ha Hb Hne Hha Hhb.
    eapply layout_disjoint; try eassumption. apply Hwf.
Qed.

Lemma reachable_blocks_disjoint_witness :
  (forall a ha, a ∈ [4096; 4184] -> hdrs st_two_plain !! a = Some ha ->
     brk_min st_two_plain <= a /\ 0 <= s_size ha /\
     a + sizeof_header_t + s_size ha <= brk st_two_plain) /\
  (forall a b ha hb, a ∈ [4096; 4184] -> b ∈ [4096; 4184] -> a <> b ->
     hdrs st_two_plain !! a = Some ha -> hdrs st_two_plain !! b = Some hb ->
     a + sizeof_header_t + s_size ha <= b \/
     b + sizeof_header_t + s_size hb <= a).
Proof.
  apply (reachable_blocks_disjoint st_two_plain [4096; 4184]).
  - exact reachable_st_two_plain.
  - chain_concrete.
Defined.

(** X17. In every state a client can reach, the four entry points
    return: the registry walks of [malloc] and [free] end and no header
    is read where none was written, for every request whose total size
    stays below [2^63] and every registered block. *)
Theorem reachable_calls_return (st : state) :
  reachable st ->
  (forall s, 0 <= s -> sizeof_header_t + s < 2 ^ 63 ->
     exists p st', malloc s st = Done (p, st')) /\
  (forall p, registered st p -> exists st', free p st = Done st') /\
  (forall num nsize, 0 <= num -> 0 <= nsize ->
     sizeof_header_t + num * nsize < 2 ^ 63 ->
     exists p st', calloc num nsize st = Done (p, st')) /\
  (forall p s, registered st p -> 0 <= s ->
     sizeof_header_t + s < 2 ^ 63 ->
     exists r st', realloc p s st = Done (r, st')).
Proof.
  intros Hr. destruct (reachable_wf st Hr) as (l & Hwf).
  split; [| split; [| split]].
  - intros s Hs Hsmall. destruct (Z.eq_dec s 0) as [-> | Hs0].
    + exists NULL, st. reflexivity.
    + destruct (malloc_keeps_wf s st l Hwf ltac:(lia) Hsmall)
        as (p & st' & _ & Hm & _). eauto.
  - intros p Hp. destruct (registered_in _ _ _ Hwf Hp) as (a & Ha & ->).
    destruct (free_keeps_wf st l a Hwf Ha) as (st' & _ & Hf & _). eauto.
  - intros num nsize Hnum Hns Hsmall.
    destruct (calloc_keeps_wf num nsize st l Hwf Hnum Hns Hsmall)
      as (p & st' & _ & Hc & _). eauto.
  - intros p s Hp Hs Hsmall.
    destruct (registered_in _ _ _ Hwf Hp) as (a & Ha & ->).
    destruct (realloc_keeps_wf s a st l Hwf Ha Hs Hsmall)
      as (r & st' & _ & Hre & _). eauto.
Qed.

Lemma reachable_calls_return_witness :
  (forall s, 0 <= s -> sizeof_header_t + s < 2 ^ 63 ->
     exists p st', malloc s st_two_plain = Done (p, st')) /\
  (forall p, registered st_two_plain p ->
     exists st', free p st_two_plain = Done st') /\
  (forall num nsize, 0 <= num -> 0 <= nsize ->
     sizeof_header_t + num * nsize < 2 ^ 63 ->
     exists p st', calloc num nsize st_two_plain = Done (p, st')) /\
  (forall p s, registered st_two_plain p -> 0 <= s ->
     sizeof_header_t + s < 2 ^ 63 ->
     exists r st', realloc p s st_two_plain = Done (r, st')).
Proof.
  apply (reachable_calls_return st_two_plain).
  exact reachable_st_two_plain.
Defined.
